(** * model_training.py: paired-image loader, augmentation, dataset streams,
      adversarial training step and training loop.

    Shallow embedding of [src/model_training.py].  Python values are embedded
    as follows:
    - [str] as [string]; [str.replace] is written out (leftmost,
      non-overlapping occurrences, as CPython does);
    - the file system read by [tf.io.read_file] as a [gmap string (list byte)];
    - an image tensor of shape (H, W, C) as a list of rows, each a list of
      pixels, each a list of channel values;
    - the random numbers drawn by [tf.image.random_crop], [tf.random.uniform]
      and the shuffle stages as explicit arguments;
    - exceptions as the [Err] case of a result type;
    - the variables of the two Keras models as cells of one shared store,
      addressed by identity, which the optimizers update in place;
    - the side effects of [fit] (previews, training steps, progress marks,
      checkpoints) as a trace of events. *)

From Stdlib Require Import QArith Qabs Lqa.
From Stdlib Require Import Floats.SpecFloat.
From Stdlib Require Import Ascii.
From stdpp Require Import gmap strings list.

(* ===================================================================== *)
(** * 1. Strings: [str.replace]                                           *)
(* ===================================================================== *)

(** [strip_prefix old s] is [Some r] when [s = old +:+ r]. *)
Fixpoint strip_prefix (old s : string) : option string :=
  match old with
  | EmptyString => Some s
  | String a old' =>
      match s with
      | EmptyString => None
      | String b s' => if decide (a = b) then strip_prefix old' s' else None
      end
  end.

(** [old] occurs somewhere in [s]. *)
Fixpoint occurs (old s : string) : bool :=
  match strip_prefix old s with
  | Some _ => true
  | None => match s with
            | EmptyString => false
            | String _ s' => occurs old s'
            end
  end.

(** The scan of [str.replace] for a non-empty [old]: at each position, a
    match is replaced and the scan resumes behind it; otherwise one
    character is copied.  [n] bounds the number of positions. *)
Fixpoint replace_scan (n : nat) (old new s : string) : string :=
  match n with
  | O => s
  | S n' =>
      match s with
      | EmptyString => EmptyString
      | String c s' =>
          match strip_prefix old s with
          | Some r => new +:+ replace_scan n' old new r
          | None => String c (replace_scan n' old new s')
          end
      end
  end.

(** With an empty [old], Python inserts [new] before every character and at
    the end. *)
Fixpoint replace_empty (new s : string) : string :=
  match s with
  | EmptyString => new
  | String c s' => new +:+ String c (replace_empty new s')
  end.

(** [s.replace(old, new)] *)
Definition replace (old new s : string) : string :=
  match old with
  | EmptyString => replace_empty new s
  | _ => replace_scan (String.length s) old new s
  end.

(** Lines 22-23 of [load]: the path of the target image. *)
Definition target_path (path : string) : string :=
  replace "jpg" "png" (replace "input" "output" path).

(** The replacements in the other direction. *)
Definition source_path (path : string) : string :=
  replace "png" "jpg" (replace "output" "input" path).

Example target_path_plain :
  target_path "/data/dataset/training/input/007.jpg"
  = "/data/dataset/training/output/007.png".
Proof. reflexivity. Qed.

(* ===================================================================== *)
(** * 2. Errors                                                           *)
(* ===================================================================== *)

(** The exceptions of TensorFlow that the script can meet. *)
Inductive error : Type :=
  | NotFoundError (path : string)         (* tf.io.read_file on a missing file *)
  | InvalidImageError (path : string)     (* the decoder rejects the contents *)
  | InvalidArgumentError (op : string)    (* a shape check of a tensor op fails *)
  | StopIteration.                        (* next() on an exhausted iterator *)

Inductive result (A : Type) : Type :=
  | Ok (a : A)
  | Err (e : error).
Arguments Ok {A} a.
Arguments Err {A} e.

Definition is_ok {A} (r : result A) : bool :=
  match r with Ok _ => true | Err _ => false end.

#[global] Instance result_ret : MRet result := fun A a => Ok a.

#[global] Instance result_bind : MBind result := fun A B k r =>
  match r with
  | Ok a => k a
  | Err e => Err e
  end.

(* ===================================================================== *)
(** * 3. Image tensors and the augmentation pipeline                      *)
(* ===================================================================== *)

Definition IMG_WIDTH : nat := 512.
Definition IMG_HEIGHT : nat := 512.
Definition BATCH_SIZE : nat := 1.
Definition BUFFER_SIZE : nat := 500.

(** A tensor of shape (H, W, C): rows of pixels of channel values. *)
Definition image (T : Type) : Type := list (list (list T)).

(** A tensor of shape (N, H, W, C). *)
Definition batch (T : Type) : Type := list (image T).

(** [img] is a rectangular tensor of shape (h, w, c). *)
Definition has_shape {T} (h w c : nat) (img : image T) : Prop :=
  length img = h /\
  Forall (fun row => length row = w /\ Forall (fun px => length px = c) row) img.

(** The shape TensorFlow reports for a (rectangular) tensor. *)
Definition dims {T} (img : image T) : nat * nat * nat :=
  (length img, length (hd [] img), length (hd [] (hd [] img))).

Definition tmap {A B} (f : A -> B) (img : image A) : image B :=
  map (map (map f)) img.

(** [static_cast<float>(n)]: the binary32 number nearest to [n], ties to
    even. *)
Definition float_of_nat (n : nat) : spec_float :=
  binary_normalize 24 128 (Z.of_nat n) 0 false.

(** [floorf] of a finite binary32 number, converted to an integer. *)
Definition floor_index (x : spec_float) : Z :=
  match x with
  | S754_finite s m e =>
      let v := if s then Z.neg m else Z.pos m in
      if (0 <=? e)%Z then (v * 2 ^ e)%Z else (v / 2 ^ (- e))%Z
  | _ => 0%Z
  end.

(** Source index of output index [i] under nearest-neighbour resizing from
    [n_in] to [n_out] samples with half-pixel centres.  The kernel of
    [tf.image.resize] computes it in binary32, every operation rounded to
    nearest-even: the scale is [n_in / float(n_out)], the index is
    [floorf((float(i) + 0.5f) * scale)], bounded above by [n_in - 1] and
    below by 0. *)
Definition nn_index (n_in n_out i : nat) : nat :=
  let scale := SFdiv 24 128 (float_of_nat n_in) (float_of_nat n_out) in
  let pos :=
    SFmul 24 128
      (SFadd 24 128 (float_of_nat i) (binary_normalize 24 128 1 (-1) false))
      scale in
  Z.to_nat (Z.max 0 (Z.min (floor_index pos) (Z.of_nat n_in - 1))).

(** [tf.image.resize(img, [height, width], method=NEAREST_NEIGHBOR)]; the
    kernel rejects an input without pixels. *)
Definition resize_nearest {T} (height width : nat) (img : image T)
  : result (image T) :=
  let '(in_h, in_w, _) := dims img in
  if (in_h =? 0) || (in_w =? 0) then Err (InvalidArgumentError "resize")
  else Ok (map (fun y =>
             let row := nth (nn_index in_h height y) img [] in
             map (fun x => nth (nn_index in_w width x) row []) (seq 0 width))
           (seq 0 height)).

(** Lines 47-51. *)
Definition resize {T} (input_image real_image : image T) (height width : nat)
  : result (image T * image T) :=
  input_image' ← resize_nearest height width input_image;
  real_image' ← resize_nearest height width real_image;
  Ok (input_image', real_image').

(** [tf.stack([a, b], axis=0)]: both tensors must have one shape. *)
Definition stack {T} (a b : image T) : result (batch T) :=
  if decide (dims a = dims b) then Ok [a; b]
  else Err (InvalidArgumentError "stack").

(** [tf.slice] along one axis. *)
Definition slice1 {A} (off size : nat) (l : list A) : list A :=
  take size (drop off l).

(** The window of one image at row offset [oy], column offset [ox] and
    channel offset [oc]. *)
Definition window {T} (oy ox oc h w c : nat) (img : image T) : image T :=
  slice1 oy h (map (fun row => slice1 ox w (map (slice1 oc c) row)) img).

(** The four raw integers that [tf.image.random_crop] draws, one per axis
    of the stacked tensor, and the uniform number in [0, 1) of the flip. *)
Record draws : Type := {
  crop_n : nat;
  crop_y : nat;
  crop_x : nat;
  crop_c : nat;
  flip_u : Q
}.

(** [tf.image.random_crop(value, size)] on a rank-4 tensor: the shape must
    be at least [size] on every axis; the offset on each axis is the raw
    draw modulo (shape - size + 1); the result is the slice at that
    offset. *)
Definition tf_random_crop {T} (d : draws) (value : batch T)
    (sn sh sw sc : nat) : result (batch T) :=
  let n := length value in
  let '(h, w, c) := dims (hd [] value) in
  if (sn <=? n) && (sh <=? h) && (sw <=? w) && (sc <=? c) then
    let on := crop_n d mod (n - sn + 1) in
    let oy := crop_y d mod (h - sh + 1) in
    let ox := crop_x d mod (w - sw + 1) in
    let oc := crop_c d mod (c - sc + 1) in
    Ok (slice1 on sn (map (window oy ox oc sh sw sc) value))
  else Err (InvalidArgumentError "random_crop").

(** Lines 54-58. *)
Definition random_crop {T} (d : draws) (input_image real_image : image T)
  : result (image T * image T) :=
  stacked_image ← stack input_image real_image;
  cropped_image ← tf_random_crop d stacked_image 2 IMG_HEIGHT IMG_WIDTH 3;
  Ok (nth 0 cropped_image [], nth 1 cropped_image []).

(** [tf.image.flip_left_right]: the width axis is reversed. *)
Definition flip_left_right {T} (img : image T) : image T := map (@rev _) img.

(** [tf.random.uniform(()) > 0.5] *)
Definition flip_decision (d : draws) : bool :=
  if Qlt_le_dec (1 # 2) (flip_u d) then true else false.

(** Lines 69-82. *)
Definition random_jitter {T} (d : draws) (input_image real_image : image T)
  : result (image T * image T) :=
  '(input_image, real_image) ← resize input_image real_image 542 542;
  '(input_image, real_image) ← random_crop d input_image real_image;
  if flip_decision d then
    Ok (flip_left_right input_image, flip_left_right real_image)
  else Ok (input_image, real_image).

(** Lines 62-66; 127.5 is 255/2. *)
Definition normalize (input_image real_image : image Q) : image Q * image Q :=
  (tmap (fun x => x / (255 # 2) - 1)%Q input_image,
   tmap (fun x => x / (255 # 2) - 1)%Q real_image).

(** The inverse that the specification names: (x + 1) * 127.5. *)
Definition denormalize (img : image Q) : image Q :=
  tmap (fun x => (x + 1) * (255 # 2))%Q img.

(** The same arithmetic in IEEE binary32, the [tf.float32] of the tensors:
    every operation rounds to nearest-even at precision 24. *)
Definition f32 (m e : Z) : spec_float := binary_normalize 24 128 m e false.

Definition normalize_f32 (x : spec_float) : spec_float :=
  SFsub 24 128 (SFdiv 24 128 x (f32 255 (-1))) (f32 1 0).

Definition denormalize_f32 (x : spec_float) : spec_float :=
  SFmul 24 128 (SFadd 24 128 x (f32 1 0)) (f32 255 (-1)).

(** All values of [img] lie in [lo, hi]. *)
Definition in_range (lo hi : Q) (img : image Q) : Prop :=
  Forall (Forall (Forall (fun x => lo <= x <= hi)%Q)) img.

(** Two tensors of rationals hold equal numbers. *)
Definition image_eq (a b : image Q) : Prop :=
  Forall2 (Forall2 (Forall2 Qeq)) a b.

(* ===================================================================== *)
(** * 4. Events                                                           *)
(* ===================================================================== *)

(** The two networks of the script. *)
Inductive net : Type := Generator | Discriminator.

#[global] Instance net_eq_dec : EqDecision net.
Proof. solve_decision. Defined.

(** What the script prints. *)
Inductive message : Type :=
  | MsgStep (step : Z)          (* print('step-> ', step) *)
  | MsgTime                     (* Time taken for 1000 steps: ... *)
  | MsgStepK (k : Z)            (* Step: {step // 1000}k *)
  | MsgDot.                     (* print('.') *)

(** The observable actions of a run, in the order in which they happen. *)
Inductive event : Type :=
  | EvLoad (path : string)
      (* the mapped Python function is called on one listed path *)
  | EvCall (m : net) (training : bool) (inputs : list (batch Q))
      (* a forward pass of a network *)
  | EvApply (m : net)
      (* apply_gradients of the optimizer of a network *)
  | EvSummary (tag : string) (step : Z)
      (* tf.summary.scalar *)
  | EvClear
      (* display.clear_output *)
  | EvPrint (msg : message)
  | EvPlot (display_list : list (image Q))
      (* the figure of generate_images *)
  | EvCheckpoint.
      (* checkpoint.save *)

Definition trace : Type := list event.

Definition is_call (e : event) : bool :=
  match e with EvCall _ _ _ => true | _ => false end.

Definition is_train_step (e : event) : bool :=
  match e with EvApply Generator => true | _ => false end.

Definition is_checkpoint (e : event) : bool :=
  match e with EvCheckpoint => true | _ => false end.

(* ===================================================================== *)
(** * 5. The image pair loader                                            *)
(* ===================================================================== *)

Section Loader.

(** The kernel behind [tf.image.decode_jpeg]: the decoded uint8 tensor, or
    nothing when the contents are rejected. *)
Variable decode_jpeg : list Byte.byte -> option (image Z).

(** The files on disk. *)
Variable files : gmap string (list Byte.byte).

(** [tf.io.read_file] *)
Definition read_file (path : string) : result (list Byte.byte) :=
  match files !! path with
  | Some contents => Ok contents
  | None => Err (NotFoundError path)
  end.

Definition tf_decode_jpeg (path : string) (contents : list Byte.byte)
  : result (image Z) :=
  match decode_jpeg contents with
  | Some img => Ok img
  | None => Err (InvalidImageError path)
  end.

(** [tf.cast(_, tf.float32)] *)
Definition cast_float32 (img : image Z) : image Q := tmap inject_Z img.

(** Lines 12-28.  [image_file] is the path, whether it arrives as a Python
    string or as a string tensor. *)
Definition load (image_file : string) : result (image Q * image Q) :=
  let path := image_file in
  input_image ← read_file image_file;
  input_image ← tf_decode_jpeg image_file input_image;
  let input_image := cast_float32 input_image in
  let path := replace "input" "output" path in
  let path := replace "jpg" "png" path in
  image_output ← read_file path;
  image_output ← tf_decode_jpeg path image_output;
  let image_output := cast_float32 image_output in
  Ok (input_image, image_output).

(** Lines 31-36. *)
Definition load_image_train (d : draws) (image_file : string)
  : result (image Q * image Q) :=
  '(input_image, real_image) ← load image_file;
  '(input_image, real_image) ← random_jitter d input_image real_image;
  Ok (normalize input_image real_image).

(** Lines 39-44. *)
Definition load_image_test (image_file : string)
  : result (image Q * image Q) :=
  '(input_image, real_image) ← load image_file;
  '(input_image, real_image) ←
     resize input_image real_image IMG_HEIGHT IMG_WIDTH;
  Ok (normalize input_image real_image).

End Loader.

(* ===================================================================== *)
(** * 6. Datasets                                                         *)
(* ===================================================================== *)

(** One iteration over a [tf.data] dataset: its elements in the order of
    delivery, each with the events that producing it causes.  An [Err]
    element is an exception raised when that element is pulled; it ends the
    iteration, so nothing behind it is ever reached. *)
Definition stream (A : Type) : Type := list (trace * result A).

(** One emission of a shuffle buffer: the element at a random position
    leaves the buffer. *)
Definition pick {A} (r : nat) (buf : list A) : option (A * list A) :=
  let i := r mod length buf in
  match buf !! i with
  | Some x => Some (x, delete i buf)
  | None => None
  end.

(** A shuffle whose buffer holds the whole input. *)
Fixpoint shuffle_all {A} (tape : nat -> nat) (pos n : nat) (buf : list A)
  : list A :=
  match n with
  | O => []
  | S n' =>
      match pick (tape pos) buf with
      | Some (x, buf') => x :: shuffle_all tape (S pos) n' buf'
      | None => []
      end
  end.

(** [tf.data.Dataset.list_files(pattern)]: [shuffle] is left at its default,
    which is [True]: the matched names pass through a shuffle whose buffer
    holds all of them, redrawn at every iteration. *)
Definition list_files (matched : list string) (tape : nat -> nat)
  : stream string :=
  map (fun p => ([], Ok p)) (shuffle_all tape 0 (length matched) matched).

(** [Dataset.map(f)]; [f] also receives the index of the element. *)
Definition ds_map {A B} (f : nat -> A -> trace * result B) (s : stream A)
  : stream B :=
  imap (fun i x =>
          match x with
          | (tr, Ok a) => let '(tr', b) := f i a in (tr ++ tr', b)
          | (tr, Err e) => (tr, Err e)
          end) s.

(** The buffer of [Dataset.shuffle(B)] pulls from upstream until it holds
    [B] elements or upstream is exhausted. *)
Fixpoint fill {A} (B : nat) (buf : list A) (up : stream A)
  : trace * result (list A * stream A) :=
  match up with
  | [] => ([], Ok (buf, []))
  | (tr, r) :: up' =>
      if decide (B <= length buf) then ([], Ok (buf, up))
      else match r with
           | Err e => (tr, Err e)
           | Ok x => let '(tr', r') := fill B (buf ++ [x]) up' in
                     (tr ++ tr', r')
           end
  end.

Fixpoint shuffle_go {A} (B : nat) (tape : nat -> nat) (pos fuel : nat)
    (buf : list A) (up : stream A) : stream A :=
  match fuel with
  | O => []
  | S fuel' =>
      match fill B buf up with
      | (tr, Err e) => [(tr, Err e)]
      | (tr, Ok (buf', up')) =>
          match pick (tape pos) buf' with
          | Some (x, buf'') =>
              (tr, Ok x) :: shuffle_go B tape (S pos) fuel' buf'' up'
          | None => []
          end
      end
  end.

(** [Dataset.shuffle(B)] *)
Definition ds_shuffle {A} (B : nat) (tape : nat -> nat) (s : stream A)
  : stream A :=
  shuffle_go B tape 0 (length s) [] s.

(** [Dataset.batch(size)]: [k] is the number of elements the open batch
    still takes, [acc] the open batch in reverse. *)
Fixpoint batch_go {A} (size k : nat) (tr : trace) (acc : list A)
    (s : stream A) : stream (list A) :=
  match s with
  | [] => match acc with
          | [] => []
          | _ => [(tr, Ok (rev acc))]
          end
  | (tr', Err e) :: _ => [(tr ++ tr', Err e)]
  | (tr', Ok x) :: s' =>
      match k with
      | S (S k') => batch_go size (S k') (tr ++ tr') (x :: acc) s'
      | _ => (tr ++ tr', Ok (rev (x :: acc))) :: batch_go size size [] [] s'
      end
  end.

(** A batch of pairs is the pair of the stacked components. *)
Definition collate {A} (l : list (A * A)) : list A * list A :=
  (map fst l, map snd l).

Definition ds_batch {A} (size : nat) (s : stream (A * A))
  : stream (list A * list A) :=
  map (fun x => match x with
                | (tr, Ok l) => (tr, Ok (collate l))
                | (tr, Err e) => (tr, Err e)
                end) (batch_go size size [] [] s).

(** The random numbers of one iteration over a dataset. *)
Record epoch_draws : Type := {
  files_draw : nat -> nat;      (* the shuffle of list_files *)
  buffer_draw : nat -> nat;     (* the shuffle buffer of the training set *)
  jitter_draw : nat -> draws    (* the augmentation of the i-th element *)
}.

Section Datasets.

Variable decode_jpeg : list Byte.byte -> option (image Z).
Variable files : gmap string (list Byte.byte).

(** The names matched by [dataset/training/input/*.jpg] and by
    [dataset/test/input/*.jpg]. *)
Variable train_files : list string.
Variable test_files : list string.

(** Lines 172-178.  The parallel calls of [map] keep the order of the
    elements and [prefetch] changes no delivered value: the stream is the
    sequential one. *)
Definition train_dataset (ed : epoch_draws)
  : stream (batch Q * batch Q) :=
  let ds := list_files train_files (files_draw ed) in
  let ds := ds_map (fun i x =>
              ([EvLoad x],
               load_image_train decode_jpeg files (jitter_draw ed i) x)) ds in
  let ds := ds_shuffle BUFFER_SIZE (buffer_draw ed) ds in
  ds_batch BATCH_SIZE ds.

(** Lines 185-188. *)
Definition test_dataset (ed : epoch_draws)
  : stream (batch Q * batch Q) :=
  let ds := list_files test_files (files_draw ed) in
  let ds := ds_map (fun _ x =>
              ([EvLoad x], load_image_test decode_jpeg files x)) ds in
  ds_batch BATCH_SIZE ds.

End Datasets.

(* ===================================================================== *)
(** * 7. The adversarial training step                                    *)
(* ===================================================================== *)

(** A Keras model: its trainable variables, named by identity, and its
    forward pass, which reads the current values of the variables.  The
    store holds the variables that the optimizers update; what a layer may
    write of its own during a forward pass in training mode (the moving
    statistics of a normalization layer) is not part of it. *)
Record model (tensor O : Type) : Type := {
  name : net;
  trainable_variables : list positive;
  forward : gmap positive tensor -> bool -> list (batch Q) -> O
}.
Arguments name {tensor O} m.
Arguments trainable_variables {tensor O} m.
Arguments forward {tensor O} m vars training inputs.

(** An Adam optimizer: the number of updates made and the moment slots it
    keeps per variable. *)
Record optimizer (tensor : Type) : Type := {
  iterations : nat;
  slots : gmap positive (tensor * tensor)
}.
Arguments iterations {tensor} o.
Arguments slots {tensor} o.

(** The module-level mutable state. *)
Record world (tensor : Type) : Type := {
  variables : gmap positive tensor;
  generator_optimizer : optimizer tensor;
  discriminator_optimizer : optimizer tensor
}.
Arguments variables {tensor} w.
Arguments generator_optimizer {tensor} w.
Arguments discriminator_optimizer {tensor} w.

Section Training.

(** Values of variables, gradients, scores and losses. *)
Variable tensor : Type.

(** [generator_util.Generator()] and [discriminator_util.Discriminator()]. *)
Variable generator : model tensor (batch Q).
Variable discriminator : model tensor tensor.

(** [generator_util.generator_loss] and
    [discriminator_util.discriminator_loss], with the cross-entropy object
    of line 88 built in. *)
Variable generator_loss : tensor -> batch Q -> batch Q -> tensor * tensor * tensor.
Variable discriminator_loss : tensor -> tensor -> tensor.

(** Differentiation of a recorded computation with respect to one
    variable, at the current values. *)
Variable partial :
  (gmap positive tensor -> tensor) -> gmap positive tensor -> positive -> tensor.

(** The update rule of [Adam(2e-4, beta_1=0.5)]: from the number of the
    update, the slot of the variable, the gradient and the value, the new
    value and slot. *)
Variable adam :
  nat -> option (tensor * tensor) -> tensor -> tensor -> tensor * (tensor * tensor).

(** [tape.gradient(target, sources)] *)
Definition tape_gradient (target : gmap positive tensor -> tensor)
    (vars : gmap positive tensor) (sources : list positive) : list tensor :=
  map (partial target vars) sources.

Definition apply_one (t : nat)
    (acc : gmap positive tensor * gmap positive (tensor * tensor))
    (gv : tensor * positive)
  : gmap positive tensor * gmap positive (tensor * tensor) :=
  let '(vars, sl) := acc in
  let '(g, v) := gv in
  match vars !! v with
  | Some x => let '(x', s') := adam t (sl !! v) g x in
              (<[v := x']> vars, <[v := s']> sl)
  | None => (vars, sl)
  end.

(** [optimizer.apply_gradients(grads_and_vars)] *)
Definition apply_gradients (opt : optimizer tensor)
    (grads_and_vars : list (tensor * positive)) (vars : gmap positive tensor)
  : gmap positive tensor * optimizer tensor :=
  let t := S (iterations opt) in
  let '(vars', sl') := foldl (apply_one t) (vars, slots opt) grads_and_vars in
  (vars', {| iterations := t; slots := sl' |}).

(** Lines 88-96: what the two tapes record, as a function of the values of
    the variables. *)
Definition losses (input_image target : batch Q) (vars : gmap positive tensor)
  : tensor * tensor * tensor * tensor :=
  let gen_output := forward generator vars true [input_image] in
  let disc_real_output :=
    forward discriminator vars true [input_image; target] in
  let disc_generated_output :=
    forward discriminator vars true [input_image; gen_output] in
  let '(gen_total_loss, gen_gan_loss, gen_l1_loss) :=
    generator_loss disc_generated_output gen_output target in
  let disc_loss :=
    discriminator_loss disc_real_output disc_generated_output in
  (gen_total_loss, gen_gan_loss, gen_l1_loss, disc_loss).

Definition gen_total_loss (input_image target : batch Q)
    (vars : gmap positive tensor) : tensor :=
  (losses input_image target vars).1.1.1.

Definition disc_loss (input_image target : batch Q)
    (vars : gmap positive tensor) : tensor :=
  (losses input_image target vars).2.

(** Lines 98-101. *)
Definition generator_gradients (input_image target : batch Q)
    (vars : gmap positive tensor) : list tensor :=
  tape_gradient (gen_total_loss input_image target) vars
    (trainable_variables generator).

Definition discriminator_gradients (input_image target : batch Q)
    (vars : gmap positive tensor) : list tensor :=
  tape_gradient (disc_loss input_image target) vars
    (trainable_variables discriminator).

(** Lines 103-104, on the values of the variables. *)
Definition generator_update (w : world tensor) (input_image target : batch Q)
  : gmap positive tensor * optimizer tensor :=
  apply_gradients (generator_optimizer w)
    (zip (generator_gradients input_image target (variables w))
         (trainable_variables generator))
    (variables w).

(** Lines 105-106: the gradients are those computed at line 100, from the
    values before either update; they are applied to the values the
    generator's update has left. *)
Definition discriminator_update (w : world tensor)
    (input_image target : batch Q) (vars1 : gmap positive tensor)
  : gmap positive tensor * optimizer tensor :=
  apply_gradients (discriminator_optimizer w)
    (zip (discriminator_gradients input_image target (variables w))
         (trainable_variables discriminator))
    vars1.

(** Lines 86-112. *)
Definition train_step (w : world tensor) (input_image target : batch Q)
    (step : Z) : world tensor * trace :=
  let vars := variables w in
  let gen_output := forward generator vars true [input_image] in
  let '(vars1, gen_opt) := generator_update w input_image target in
  let '(vars2, disc_opt) := discriminator_update w input_image target vars1 in
  ({| variables := vars2;
      generator_optimizer := gen_opt;
      discriminator_optimizer := disc_opt |},
   [EvCall (name generator) true [input_image];
    EvCall (name discriminator) true [input_image; target];
    EvCall (name discriminator) true [input_image; gen_output];
    EvApply Generator;
    EvApply Discriminator;
    EvSummary "gen_total_loss" (step / 1000);
    EvSummary "gen_gan_loss" (step / 1000);
    EvSummary "gen_l1_loss" (step / 1000);
    EvSummary "disc_loss" (step / 1000)]).

(* ===================================================================== *)
(** * 8. Previews and the training loop                                   *)
(* ===================================================================== *)

(** Lines 115-127.  [x[0]] is the first image of a batch. *)
Definition generate_images (vars : gmap positive tensor)
    (model : model tensor (batch Q)) (test_input tar : batch Q) : trace :=
  let prediction := forward model vars true [test_input] in
  let display_list := [nth 0 test_input []; nth 0 tar []; nth 0 prediction []] in
  [EvCall (name model) true [test_input];
   EvPlot (map (tmap (fun x => x * (1 # 2) + (1 # 2))%Q) display_list)].

(** How a call of [fit] ends. *)
Inductive outcome : Type :=
  | Finished (w : world tensor)
  | Raised (e : error)
  | OutOfFuel.

(** The random numbers of the successive iterations over the training set
    and over the test set. *)
Variable train_rnd : nat -> epoch_draws.
Variable test_rnd : nat -> epoch_draws.

(** The body of the loop, lines 135-155. *)
Definition fit_body (w : world tensor) (example_input example_target : batch Q)
    (step : Z) (input_image target : batch Q) : world tensor * trace :=
  let tr1 := [EvPrint (MsgStep step)] in
  let tr2 :=
    if decide (step mod 1000 = 0)%Z then
      [EvClear]
      ++ (if decide (step <> 0)%Z then [EvPrint MsgTime] else [])
      ++ generate_images (variables w) generator example_input example_target
      ++ [EvPrint (MsgStepK (step / 1000))]
    else [] in
  let '(w', tr3) := train_step w input_image target step in
  let tr4 := if decide ((step + 1) mod 10 = 0)%Z then [EvPrint MsgDot] else [] in
  let tr5 := if decide ((step + 1) mod 5000 = 0)%Z then [EvCheckpoint] else [] in
  (w', tr1 ++ tr2 ++ tr3 ++ tr4 ++ tr5).

(** The loop of line 134 over [train_ds.repeat().take(steps).enumerate()].
    [cur] is what is left of the running iteration over the training set and
    [epoch] the number of iterations started.  [take(steps)] ends the loop
    once [steps] elements were delivered, and never when [steps] is
    negative; [repeat()] starts a new iteration when the running one is
    exhausted, and ends when a new iteration delivers nothing. *)
Fixpoint fit_loop (fuel : nat) (train_ds : epoch_draws -> stream (batch Q * batch Q))
    (steps step : Z) (epoch : nat) (cur : stream (batch Q * batch Q))
    (example_input example_target : batch Q) (w : world tensor)
  : trace * outcome :=
  match fuel with
  | O => ([], OutOfFuel)
  | S fuel' =>
      if decide (0 <= steps /\ steps <= step)%Z then ([], Finished w)
      else
        let '(epoch, cur) :=
          match cur with
          | [] => (S epoch, train_ds (train_rnd epoch))
          | _ => (epoch, cur)
          end in
        match cur with
        | [] => ([], Finished w)
        | (tr, Err e) :: _ => (tr, Raised e)
        | (tr, Ok (input_image, target)) :: rest =>
            let '(w', tr_body) :=
              fit_body w example_input example_target step input_image target in
            let '(tr_rest, o) :=
              fit_loop fuel' train_ds steps (step + 1) epoch rest
                example_input example_target w' in
            (tr ++ tr_body ++ tr_rest, o)
        end
  end.

(** Lines 130-155.  [next(iter(test_ds.take(1)))] pulls the first element
    of an iteration over the test set. *)
Definition fit (fuel : nat) (w : world tensor)
    (train_ds test_ds : epoch_draws -> stream (batch Q * batch Q))
    (steps : Z) : trace * outcome :=
  match take 1 (test_ds (test_rnd 0)) with
  | [] => ([], Raised StopIteration)
  | (tr0, Err e) :: _ => (tr0, Raised e)
  | (tr0, Ok (example_input, example_target)) :: _ =>
      let '(tr, o) :=
        fit_loop fuel train_ds steps 0 0 [] example_input example_target w in
      (tr0 ++ tr, o)
  end.

End Training.

(* ===================================================================== *)
(** * 9. Predicates of the statements                                     *)
(* ===================================================================== *)

#[global] Instance has_shape_dec {T} (h w c : nat) (img : image T) :
  Decision (has_shape h w c img).
Proof. unfold has_shape. apply _. Defined.

(** The geometric part of the augmentation of one resized image: the
    window at the drawn offset, mirrored when the flip is drawn. *)
Definition jitter_geometry {T} (d : draws) (img : image T) : image T :=
  let w := window (crop_y d mod 31) (crop_x d mod 31) 0 512 512 3 img in
  if flip_decision d then flip_left_right w else w.

(** [c] is one of the characters of [s]. *)
Fixpoint has_char (c : Ascii.ascii) (s : string) : bool :=
  match s with
  | EmptyString => false
  | String x s' => if decide (x = c) then true else has_char c s'
  end.

(** Every event of [tr] is the load of a path that satisfies [P]. *)
Definition loads_of (P : string -> Prop) (tr : trace) : Prop :=
  Forall (fun e => exists q, e = EvLoad q /\ P q) tr.

(** What the production of one element does: loads of paths in [P], and,
    when it raises, one more load, the failing one, at the end. *)
Definition elem_inv {A} (P : string -> Prop) (x : trace * result A) : Prop :=
  match x.2 with
  | Ok _ => loads_of P x.1
  | Err _ => exists pre q, x.1 = pre ++ [EvLoad q] /\ loads_of P pre
  end.

Definition stream_inv {A} (P : string -> Prop) (s : stream A) : Prop :=
  Forall (elem_inv P) s.

(** No element raises. *)
Definition all_ok {A} (s : stream A) : Prop :=
  Forall (fun x => is_ok x.2 = true) s.

(** The values delivered satisfy [R]. *)
Definition values_in {A} (R : A -> Prop) (s : stream A) : Prop :=
  Forall (fun x => forall a, x.2 = Ok a -> R a) s.

(** A decoded image with pixels and three channels. *)
Definition well_formed3 (img : image Z) : Prop :=
  0 < (dims img).1.1 /\ 0 < (dims img).1.2 /\
  has_shape (dims img).1.1 (dims img).1.2 3 img.

(** Both files of the pair at [p] are there and decode to such images. *)
Definition loadable (decode_jpeg : list Byte.byte -> option (image Z))
    (files : gmap string (list Byte.byte)) (p : string) : Prop :=
  match files !! p, files !! target_path p with
  | Some ci, Some co =>
      match decode_jpeg ci, decode_jpeg co with
      | Some ia, Some ib => well_formed3 ia /\ well_formed3 ib
      | _, _ => False
      end
  | _, _ => False
  end.

#[global] Instance well_formed3_dec (img : image Z) : Decision (well_formed3 img).
Proof. unfold well_formed3. apply _. Defined.

#[global] Instance loadable_dec decode_jpeg files p :
  Decision (loadable decode_jpeg files p).
Proof. unfold loadable. repeat case_match; apply _. Defined.

(** The paths whose pair loads. *)
Definition pair_loads (decode_jpeg : list Byte.byte -> option (image Z))
    (files : gmap string (list Byte.byte)) (p : string) : Prop :=
  is_ok (load decode_jpeg files p) = true.

Fixpoint count_events (f : event -> bool) (tr : trace) : nat :=
  match tr with
  | [] => 0
  | e :: tr' => (if f e then 1 else 0) + count_events f tr'
  end.

Definition is_load (e : event) : bool :=
  match e with EvLoad _ => true | _ => false end.

(** A forward pass in training mode, or not a forward pass. *)
Definition training_call (e : event) : bool :=
  match e with EvCall _ training _ => training | _ => true end.

(** The loads among the events of [tr] are of paths in [P]. *)
Definition good_events (P : string -> Prop) (tr : trace) : Prop :=
  Forall (fun e => forall q, e = EvLoad q -> P q) tr.

(** How a run and its trace relate to the loads: either every load in the
    trace is of a pair that loads, or the run was ended by an exception
    raised by its last event, a load, and every earlier load is of a pair
    that loads. *)
Definition run_shape (tensor : Type) (good : string -> Prop)
    (tr : trace) (o : outcome tensor) : Prop :=
  good_events good tr \/
  exists pre q e, tr = pre ++ [EvLoad q] /\ good_events good pre /\ o = Raised tensor e.

(** The elements of a stream up to the first that raises. *)
Fixpoint until_err {A} (s : stream A) : stream A :=
  match s with
  | [] => []
  | (tr, Ok a) :: s' => (tr, Ok a) :: until_err s'
  | (tr, Err e) :: _ => [(tr, Err e)]
  end.

(** A batch of one element. *)
Definition batch1 {A} (x : trace * result (A * A))
  : trace * result (list A * list A) :=
  match x with
  | (tr, Ok (a, b)) => (tr, Ok ([a], [b]))
  | (tr, Err e) => (tr, Err e)
  end.

(** ** Predicates of the further properties *)

(** The decoded values of an 8-bit image. *)
Definition byte_valued (img : image Z) : Prop :=
  Forall (Forall (Forall (fun v => (0 <= v <= 255)%Z))) img.

(** A decoder that yields rectangular tensors. *)
Definition rectangular_decoder
    (decode_jpeg : list Byte.byte -> option (image Z)) : Prop :=
  forall contents img,
    decode_jpeg contents = Some img -> exists h w c, has_shape h w c img.

(** A batch of one pair of images of shape 512 x 512 x 3. *)
Definition training_batch (x : batch Q * batch Q) : Prop :=
  exists a b, x = ([a], [b]) /\ has_shape 512 512 3 a /\ has_shape 512 512 3 b.

(** All the events of an iteration over a stream, in order. *)
Definition stream_events {A} (s : stream A) : trace := concat (map fst s).

Definition is_plot (e : event) : bool :=
  match e with EvPlot _ => true | _ => false end.

Definition is_dot (e : event) : bool :=
  match e with EvPrint MsgDot => true | _ => false end.

Definition is_summary (e : event) : bool :=
  match e with EvSummary _ _ => true | _ => false end.

(** The numbers of training steps made before each event of [tr] that
    satisfies [f], [done] steps having been made before [tr]. *)
Fixpoint steps_before (f : event -> bool) (done : nat) (tr : trace) : list nat :=
  match tr with
  | [] => []
  | e :: tr' =>
      if f e then done :: steps_before f done tr'
      else steps_before f (if is_train_step e then S done else done) tr'
  end.

(* ===================================================================== *)
(** * 10. A small instance                                                *)
(* ===================================================================== *)

(** A stand-in for the image decoder: the contents are the channel values
    of one row of pixels, three bytes per pixel. *)
Fixpoint raw_pixels (contents : list Byte.byte) : option (list (list Z)) :=
  match contents with
  | [] => Some []
  | r :: g :: b :: rest =>
      match raw_pixels rest with
      | Some row =>
          Some ([Z.of_N (Byte.to_N r); Z.of_N (Byte.to_N g);
                 Z.of_N (Byte.to_N b)] :: row)
      | None => None
      end
  | _ => None
  end.

Definition raw_decode (contents : list Byte.byte) : option (image Z) :=
  match raw_pixels contents with
  | Some (px :: row) => Some [px :: row]
  | _ => None
  end.

Definition demo_train_files : list string :=
  ["/d/dataset/training/input/a.jpg"; "/d/dataset/training/input/b.jpg"].

Definition demo_test_files : list string :=
  ["/d/dataset/test/input/t.jpg"; "/d/dataset/test/input/u.jpg"].

(** Two training pairs and two test pairs. *)
Definition demo_files : gmap string (list Byte.byte) :=
  list_to_map
    [("/d/dataset/training/input/a.jpg", [Byte.x0a; Byte.x14; Byte.x1e]);
     ("/d/dataset/training/output/a.png", [Byte.xff; Byte.x00; Byte.x00]);
     ("/d/dataset/training/input/b.jpg",
      [Byte.x01; Byte.x02; Byte.x03; Byte.x04; Byte.x05; Byte.x06]);
     ("/d/dataset/training/output/b.png", [Byte.x00; Byte.xff; Byte.x00]);
     ("/d/dataset/test/input/t.jpg", [Byte.x07; Byte.x08; Byte.x09]);
     ("/d/dataset/test/output/t.png", [Byte.x00; Byte.x00; Byte.xff]);
     ("/d/dataset/test/input/u.jpg", [Byte.x0b; Byte.x0c; Byte.x0d]);
     ("/d/dataset/test/output/u.png", [Byte.xff; Byte.xff; Byte.x00])].

(** The same with a third training input that has no output. *)
Definition demo_files_missing : gmap string (list Byte.byte) :=
  <["/d/dataset/training/input/c.jpg" := [Byte.x01; Byte.x01; Byte.x01]]>
    demo_files.

Definition demo_draws : draws :=
  {| crop_n := 5; crop_y := 40; crop_x := 7; crop_c := 2; flip_u := 3 # 4 |}.

Definition demo_epoch (first : nat) : epoch_draws :=
  {| files_draw := fun i => match i with O => first | _ => 0 end;
     buffer_draw := fun _ => 0;
     jitter_draw := fun _ => demo_draws |}.

Definition demo_input : image Q := [[[10; 20; 30]]]%Q.
Definition demo_target : image Q := [[[255; 0; 0]; [0; 255; 0]]]%Q.

(** Two networks with one variable each, over integers. *)
Definition demo_generator : model Z (batch Q) :=
  {| name := Generator;
     trainable_variables := [1%positive];
     forward := fun _ _ inputs => hd [] inputs |}.

Definition demo_discriminator : model Z Z :=
  {| name := Discriminator;
     trainable_variables := [2%positive];
     forward := fun vars _ _ => default 0%Z (vars !! 2%positive) |}.

Definition demo_generator_loss (fake : Z) (out tar : batch Q) : Z * Z * Z :=
  (fake + 100, fake, 1)%Z.

Definition demo_discriminator_loss (real fake : Z) : Z := (real + fake)%Z.

Definition demo_partial (target : gmap positive Z -> Z)
    (vars : gmap positive Z) (v : positive) : Z :=
  (target (alter Z.succ v vars) - target vars)%Z.

Definition demo_adam (t : nat) (slot : option (Z * Z)) (g x : Z)
  : Z * (Z * Z) :=
  ((x - g)%Z, (g, (g * g)%Z)).

Definition demo_world : world Z :=
  {| variables := {[ 1%positive := 10%Z; 2%positive := 20%Z ]};
     generator_optimizer := {| iterations := 0; slots := ∅ |};
     discriminator_optimizer := {| iterations := 0; slots := ∅ |} |}.

(** An image of 512 x 512 pixels that are all different: the pixel at row
    y and column x holds y, x and 0. *)
Definition demo_square : image Z :=
  map (fun y => map (fun x => [Z.of_nat y; Z.of_nat x; 0%Z]) (seq 0 512))
    (seq 0 512).

(* ===================================================================== *)
(** * 11. Normalization                                                    *)
(* ===================================================================== *)

Lemma normalize_value_range (x : Q) :
  (0 <= x <= 255 -> -1 <= x / (255 # 2) - 1 <= 1)%Q.
Proof.
  intros [Hlo Hhi]. unfold Qdiv.
  change (/ (255 # 2))%Q with (2 # 255)%Q. split; lra.
Qed.

Lemma normalize_value_inverse (x : Q) :
  ((x / (255 # 2) - 1 + 1) * (255 # 2) == x)%Q.
Proof. field. Qed.

Lemma tmap_in_range (f : Q -> Q) (lo hi lo' hi' : Q) (img : image Q) :
  (forall x, (lo <= x <= hi)%Q -> (lo' <= f x <= hi')%Q) ->
  in_range lo hi img -> in_range lo' hi' (tmap f img).
Proof.
  intros Hf Himg. unfold in_range, tmap in *.
  apply Forall_map. eapply Forall_impl; [exact Himg|].
  intros row Hrow. apply Forall_map. eapply Forall_impl; [exact Hrow|].
  intros px Hpx. apply Forall_map. eapply Forall_impl; [exact Hpx|].
  intros x Hx. simpl. auto.
Qed.

Lemma tmap_image_eq (f : Q -> Q) (img : image Q) :
  (forall x, f x == x)%Q -> image_eq (tmap f img) img.
Proof.
  intros Hf. unfold image_eq, tmap.
  induction img as [|row img IH]; [constructor|].
  simpl. constructor; [|exact IH]. clear IH.
  induction row as [|px row IH]; [constructor|].
  simpl. constructor; [|exact IH]. clear IH.
  induction px as [|x px IH]; simpl; constructor; auto.
Qed.

Lemma tmap_tmap {A B C} (f : A -> B) (g : B -> C) (img : image A) :
  tmap g (tmap f img) = tmap (fun x => g (f x)) img.
Proof.
  unfold tmap. rewrite map_map. apply map_ext. intros row.
  rewrite map_map. apply map_ext. intros px. apply map_map.
Qed.

(** C4.  Normalization, (x / 127.5) - 1 on every value, sends two images
    with values in [0, 255] to images with values in [-1, 1], and
    denormalization, (x + 1) * 127.5, gives back the values of each image.
    In the arithmetic of rationals the round trip is exact. *)
Theorem normalize_range_roundtrip (input_image real_image : image Q) :
  in_range 0 255 input_image ->
  in_range 0 255 real_image ->
  in_range (-1) 1 (normalize input_image real_image).1 /\
  in_range (-1) 1 (normalize input_image real_image).2 /\
  image_eq (denormalize (normalize input_image real_image).1) input_image /\
  image_eq (denormalize (normalize input_image real_image).2) real_image.
Proof.
  intros Ha Hb. unfold normalize, denormalize. simpl.
  repeat split.
  - eapply tmap_in_range; [|exact Ha]. intros x. apply normalize_value_range.
  - eapply tmap_in_range; [|exact Hb]. intros x. apply normalize_value_range.
  - rewrite tmap_tmap. apply tmap_image_eq. intros x.
    apply normalize_value_inverse.
  - rewrite tmap_tmap. apply tmap_image_eq. intros x.
    apply normalize_value_inverse.
Qed.

(** In binary32 the same holds for each of the 256 values a decoded pixel
    can take: the normalized value lies in [-1, 1] and the round trip is
    off by at most 2^-18. *)
Lemma normalize_f32_pixels (k : Z) :
  (0 <= k <= 255)%Z ->
  SFleb (f32 (-1) 0) (normalize_f32 (f32 k 0)) = true /\
  SFleb (normalize_f32 (f32 k 0)) (f32 1 0) = true /\
  SFleb (SFabs (SFsub 24 128 (denormalize_f32 (normalize_f32 (f32 k 0)))
                             (f32 k 0)))
        (f32 1 (-18)) = true.
Proof.
  intros Hk.
  assert (Hall : forallb (fun n =>
            let x := f32 (Z.of_nat n) 0 in
            SFleb (f32 (-1) 0) (normalize_f32 x)
            && SFleb (normalize_f32 x) (f32 1 0)
            && SFleb (SFabs (SFsub 24 128 (denormalize_f32 (normalize_f32 x)) x))
                     (f32 1 (-18))) (seq 0 256) = true)
    by (vm_compute; reflexivity).
  rewrite forallb_forall in Hall.
  specialize (Hall (Z.to_nat k)).
  rewrite Z2Nat.id in Hall by lia.
  assert (Hin : In (Z.to_nat k) (seq 0 256)) by (apply in_seq; lia).
  specialize (Hall Hin). simpl in Hall.
  apply andb_prop in Hall as [Hall H3].
  apply andb_prop in Hall as [H1 H2]. auto.
Qed.

(** In binary32 the round trip is not always exact. *)
Example normalize_f32_inexact :
  SFeqb (denormalize_f32 (normalize_f32 (f32 1 0))) (f32 1 0) = false.
Proof. vm_compute. reflexivity. Qed.

(* ===================================================================== *)
(** * 12. Shapes through the augmentation                                 *)
(* ===================================================================== *)

Section Shapes.

Context {T : Type}.
Implicit Types img a b : image T.

Lemma has_shape_dims h w c img :
  0 < h -> 0 < w -> has_shape h w c img -> dims img = (h, w, c).
Proof.
  intros Hh Hw [Hlen Hrows]. unfold dims.
  destruct img as [|row img]; simpl in *; [lia|].
  inversion Hrows as [|? ? [Hrow Hpx] _]; subst.
  destruct row as [|px row]; simpl in *; [lia|].
  inversion Hpx; subst. reflexivity.
Qed.

Lemma has_shape_row h w c img i :
  has_shape h w c img -> i < h ->
  length (nth i img []) = w /\ Forall (fun px => length px = c) (nth i img []).
Proof.
  intros [Hlen Hrows] Hi.
  rewrite Forall_nth in Hrows. apply Hrows. lia.
Qed.

Lemma nn_index_lt n_in n_out i : 0 < n_in -> nn_index n_in n_out i < n_in.
Proof.
  intros Hn. unfold nn_index. cbv zeta.
  generalize (floor_index
                (SFmul 24 128
                   (SFadd 24 128 (float_of_nat i)
                      (binary_normalize 24 128 1 (-1) false))
                   (SFdiv 24 128 (float_of_nat n_in) (float_of_nat n_out)))).
  intros q. lia.
Qed.

(** The rounding of binary32 shows at exact ties: from 280 rows to 542,
    output row 406 has its centre at (406 + 0.5) * 280 / 542 = 210 exactly,
    and the kernel reads row 209, because the scale 280 / 542 is rounded
    down to binary32. *)
Example nn_index_tie :
  nn_index 280 542 406 = 209 /\ ((2 * 406 + 1) * 280) / (2 * 542) = 210.
Proof. split; vm_compute; reflexivity. Qed.

Lemma nth_map_seq {B} (f : nat -> B) (n i : nat) (d : B) :
  i < n -> nth i (map f (seq 0 n)) d = f i.
Proof.
  intros Hi. rewrite (nth_indep _ d (f 0)) by (rewrite length_map, length_seq; lia).
  rewrite map_nth. rewrite seq_nth by lia. reflexivity.
Qed.

(** The resampling of [resize_nearest], once the input is known to have
    pixels. *)
Lemma resize_nearest_ok (height width h w c : nat) img :
  0 < h -> 0 < w -> has_shape h w c img ->
  exists img',
    resize_nearest height width img = Ok img' /\
    has_shape height width c img' /\
    (forall y x, y < height -> x < width ->
       nth x (nth y img' []) []
       = nth (nn_index w width x) (nth (nn_index h height y) img []) []).
Proof.
  intros Hh Hw Himg. unfold resize_nearest.
  rewrite (has_shape_dims h w c) by assumption.
  destruct h as [|h]; [lia|]. destruct w as [|w]; [lia|].
  cbn [Nat.eqb orb]. eexists. split; [reflexivity|]. split.
  - split; [by rewrite length_map, length_seq|].
    apply Forall_map, Forall_forall. intros y _. cbv beta zeta.
    split; [by rewrite length_map, length_seq|].
    apply Forall_map, Forall_forall. intros x _.
    destruct (has_shape_row _ _ _ _ (nn_index (S h) height y) Himg) as [Hl Hp].
    { apply nn_index_lt. lia. }
    rewrite Forall_nth in Hp. apply Hp. rewrite Hl. apply nn_index_lt. lia.
  - intros y x Hy Hx.
    rewrite nth_map_seq by assumption. cbv beta zeta.
    rewrite nth_map_seq by assumption. reflexivity.
Qed.

Lemma slice1_length {B} (off size : nat) (l : list B) :
  off + size <= length l -> length (slice1 off size l) = size.
Proof.
  intros H. unfold slice1. rewrite length_take, length_drop. lia.
Qed.

Lemma slice1_Forall {B} (P : B -> Prop) (off size : nat) (l : list B) :
  Forall P l -> Forall P (slice1 off size l).
Proof. intros H. unfold slice1. by apply Forall_take, Forall_drop. Qed.

Lemma window_shape (oy ox oc sh sw sc h w c : nat) img :
  has_shape h w c img ->
  oy + sh <= h -> ox + sw <= w -> oc + sc <= c ->
  has_shape sh sw sc (window oy ox oc sh sw sc img).
Proof.
  intros [Hlen Hrows] Hy Hx Hc. unfold window. split.
  - apply slice1_length. rewrite length_map. lia.
  - apply slice1_Forall, Forall_map.
    eapply Forall_impl; [exact Hrows|]. intros row [Hl Hp]. cbv beta. split.
    + apply slice1_length. rewrite length_map. lia.
    + apply slice1_Forall, Forall_map.
      eapply Forall_impl; [exact Hp|]. intros px Hpx. cbv beta in *.
      apply slice1_length. lia.
Qed.

Lemma flip_left_right_shape (h w c : nat) img :
  has_shape h w c img -> has_shape h w c (flip_left_right img).
Proof.
  intros [Hlen Hrows]. unfold flip_left_right. split.
  - by rewrite length_map.
  - apply Forall_map. eapply Forall_impl; [exact Hrows|].
    intros row [Hl Hp]. cbv beta. split.
    + by rewrite length_rev.
    + by apply Forall_rev.
Qed.

Lemma tmap_shape {B} (f : T -> B) (h w c : nat) img :
  has_shape h w c img -> has_shape h w c (tmap f img).
Proof.
  intros [Hlen Hrows]. unfold tmap. split.
  - by rewrite length_map.
  - apply Forall_map. eapply Forall_impl; [exact Hrows|].
    intros row [Hl Hp]. cbv beta. split.
    + by rewrite length_map.
    + apply Forall_map. eapply Forall_impl; [exact Hp|].
      intros px Hpx. cbv beta in *. by rewrite length_map.
Qed.

(** The crop of a stack of two images is one window, at one offset, of
    each. *)
Lemma tf_random_crop_pair (d : draws) a b (h w c sh sw sc : nat) :
  dims a = (h, w, c) -> sh <= h -> sw <= w -> sc <= c ->
  tf_random_crop d [a; b] 2 sh sw sc
  = Ok [window (crop_y d mod (h - sh + 1)) (crop_x d mod (w - sw + 1))
               (crop_c d mod (c - sc + 1)) sh sw sc a;
        window (crop_y d mod (h - sh + 1)) (crop_x d mod (w - sw + 1))
               (crop_c d mod (c - sc + 1)) sh sw sc b].
Proof.
  intros Hd Hh Hw Hc. unfold tf_random_crop.
  cbn [hd length]. rewrite Hd.
  assert (Hcond : (2 <=? 2) && (sh <=? h) && (sw <=? w) && (sc <=? c) = true).
  { rewrite !andb_true_iff, !Nat.leb_le. lia. }
  rewrite Hcond. replace (2 - 2 + 1) with 1 by lia.
  rewrite Nat.mod_1_r. reflexivity.
Qed.

Lemma resize_ok (height width ha wa hb wb c : nat) a b :
  0 < ha -> 0 < wa -> 0 < hb -> 0 < wb ->
  has_shape ha wa c a -> has_shape hb wb c b ->
  exists ra rb,
    resize a b height width = Ok (ra, rb) /\
    has_shape height width c ra /\ has_shape height width c rb /\
    (forall y x, y < height -> x < width ->
       nth x (nth y ra []) []
       = nth (nn_index wa width x) (nth (nn_index ha height y) a []) []) /\
    (forall y x, y < height -> x < width ->
       nth x (nth y rb []) []
       = nth (nn_index wb width x) (nth (nn_index hb height y) b []) []).
Proof.
  intros Hha Hwa Hhb Hwb Ha Hb.
  destruct (resize_nearest_ok height width ha wa c a Hha Hwa Ha)
    as (ra & Era & Hra & Hpa).
  destruct (resize_nearest_ok height width hb wb c b Hhb Hwb Hb)
    as (rb & Erb & Hrb & Hpb).
  exists ra, rb. unfold resize. rewrite Era, Erb. auto.
Qed.

Lemma random_crop_ok (d : draws) a b :
  has_shape 542 542 3 a -> has_shape 542 542 3 b ->
  random_crop d a b
  = Ok (window (crop_y d mod 31) (crop_x d mod 31) 0 512 512 3 a,
        window (crop_y d mod 31) (crop_x d mod 31) 0 512 512 3 b).
Proof.
  intros Ha Hb. unfold random_crop, stack.
  assert (Hda : dims a = (542, 542, 3)) by (apply has_shape_dims; [lia..|assumption]).
  assert (Hdb : dims b = (542, 542, 3)) by (apply has_shape_dims; [lia..|assumption]).
  rewrite decide_True by congruence.
  unfold mbind, result_bind.
  rewrite (tf_random_crop_pair d a b 542 542 3 IMG_HEIGHT IMG_WIDTH 3 Hda)
    by (unfold IMG_HEIGHT, IMG_WIDTH; lia).
  unfold IMG_HEIGHT, IMG_WIDTH.
  replace (542 - 512 + 1) with 31 by lia.
  replace (3 - 3 + 1) with 1 by lia.
  rewrite Nat.mod_1_r. reflexivity.
Qed.

End Shapes.



(** The stages of the training augmentation on well-shaped images. *)
Lemma augmentation_steps (d : draws)
    (input_image real_image : image Q) (ha wa hb wb : nat) :
  0 < ha -> 0 < wa -> 0 < hb -> 0 < wb ->
  has_shape ha wa 3 input_image ->
  has_shape hb wb 3 real_image ->
  exists ra rb ca cb ja jb,
    resize input_image real_image 542 542 = Ok (ra, rb) /\
    has_shape 542 542 3 ra /\ has_shape 542 542 3 rb /\
    (forall y x, y < 542 -> x < 542 ->
       nth x (nth y ra []) []
       = nth (nn_index wa 542 x) (nth (nn_index ha 542 y) input_image []) []) /\
    (forall y x, y < 542 -> x < 542 ->
       nth x (nth y rb []) []
       = nth (nn_index wb 542 x) (nth (nn_index hb 542 y) real_image []) []) /\
    random_crop d ra rb = Ok (ca, cb) /\
    has_shape 512 512 3 ca /\ has_shape 512 512 3 cb /\
    random_jitter d input_image real_image = Ok (ja, jb) /\
    has_shape 512 512 3 ja /\ has_shape 512 512 3 jb /\
    has_shape 512 512 3 (normalize ja jb).1 /\
    has_shape 512 512 3 (normalize ja jb).2.
Proof.
  intros Hha Hwa Hhb Hwb Ha Hb.
  destruct (resize_ok 542 542 ha wa hb wb 3 input_image real_image)
    as (ra & rb & Eres & Hra & Hrb & Hpa & Hpb); try assumption.
  pose proof (random_crop_ok d ra rb Hra Hrb) as Ecrop.
  set (oy := crop_y d mod 31) in *. set (ox := crop_x d mod 31) in *.
  assert (Hoy : oy + 512 <= 542).
  { pose proof (Nat.mod_upper_bound (crop_y d) 31 ltac:(lia)). unfold oy. lia. }
  assert (Hox : ox + 512 <= 542).
  { pose proof (Nat.mod_upper_bound (crop_x d) 31 ltac:(lia)). unfold ox. lia. }
  assert (Hca : has_shape 512 512 3 (window oy ox 0 512 512 3 ra)).
  { eapply window_shape; [exact Hra|lia..]. }
  assert (Hcb : has_shape 512 512 3 (window oy ox 0 512 512 3 rb)).
  { eapply window_shape; [exact Hrb|lia..]. }
  exists ra, rb, (window oy ox 0 512 512 3 ra), (window oy ox 0 512 512 3 rb).
  destruct (flip_decision d) eqn:Hflip.
  - exists (flip_left_right (window oy ox 0 512 512 3 ra)),
           (flip_left_right (window oy ox 0 512 512 3 rb)).
    unfold random_jitter. rewrite Eres. unfold mbind, result_bind.
    rewrite Ecrop, Hflip. unfold normalize. cbn [fst snd].
    split_and!; auto using flip_left_right_shape, tmap_shape.
  - exists (window oy ox 0 512 512 3 ra), (window oy ox 0 512 512 3 rb).
    unfold random_jitter. rewrite Eres. unfold mbind, result_bind.
    rewrite Ecrop, Hflip. unfold normalize. cbn [fst snd].
    split_and!; auto using tmap_shape.
Qed.

(** C2.  The training augmentation, on decoded images of any sizes ha x wa
    and hb x wb with three channels: both are first resized to 542 x 542 by
    nearest-neighbour sampling (every resized pixel is the source pixel at
    the nearest-neighbour index [nn_index], which is computed in binary32
    as the kernel computes it), then cropped, and the two images it
    returns, before and after normalization, have shape 512 x 512 x 3. *)
Theorem training_augmentation_shape (d : draws)
    (input_image real_image : image Q) (ha wa hb wb : nat) :
  0 < ha -> 0 < wa -> 0 < hb -> 0 < wb ->
  has_shape ha wa 3 input_image ->
  has_shape hb wb 3 real_image ->
  exists ra rb ca cb ja jb,
    resize input_image real_image 542 542 = Ok (ra, rb) /\
    has_shape 542 542 3 ra /\ has_shape 542 542 3 rb /\
    (forall y x, y < 542 -> x < 542 ->
       nth x (nth y ra []) []
       = nth (nn_index wa 542 x) (nth (nn_index ha 542 y) input_image []) []) /\
    (forall y x, y < 542 -> x < 542 ->
       nth x (nth y rb []) []
       = nth (nn_index wb 542 x) (nth (nn_index hb 542 y) real_image []) []) /\
    random_crop d ra rb = Ok (ca, cb) /\
    has_shape 512 512 3 ca /\ has_shape 512 512 3 cb /\
    random_jitter d input_image real_image = Ok (ja, jb) /\
    has_shape 512 512 3 ja /\ has_shape 512 512 3 jb /\
    has_shape 512 512 3 (normalize ja jb).1 /\
    has_shape 512 512 3 (normalize ja jb).2.
Proof.
  intros Hha Hwa Hhb Hwb Ha Hb.
  exact (augmentation_steps d input_image real_image ha wa hb wb
           Hha Hwa Hhb Hwb Ha Hb).
Qed.



Lemma flip_decision_spec (d : draws) :
  flip_decision d = true <-> (1 # 2 < flip_u d)%Q.
Proof.
  unfold flip_decision. destruct (Qlt_le_dec (1 # 2) (flip_u d)) as [H|H].
  - tauto.
  - split; [discriminate|]. intros H'. exfalso. lra.
Qed.

(** C3.  Within one call of the training augmentation both images are
    resized to the same 542 x 542, and then pass through one and the same
    geometric transform [jitter_geometry d]: the same crop offset
    (crop_y mod 31, crop_x mod 31) and the same flip decision.  The flip is
    taken exactly when the uniform draw u in [0, 1) exceeds 1/2, an event
    that the reflection u -> 1 - u exchanges with its complement, hence of
    probability 1/2. *)
Theorem random_jitter_joint_transform {T} (d : draws)
    (input_image real_image : image T) (ha wa hb wb : nat) :
  0 < ha -> 0 < wa -> 0 < hb -> 0 < wb ->
  has_shape ha wa 3 input_image ->
  has_shape hb wb 3 real_image ->
  (exists ra rb,
     resize_nearest 542 542 input_image = Ok ra /\
     resize_nearest 542 542 real_image = Ok rb /\
     random_jitter d input_image real_image
     = Ok (jitter_geometry d ra, jitter_geometry d rb)) /\
  (flip_decision d = true <-> (1 # 2 < flip_u d)%Q) /\
  (forall d' : draws,
     (0 < flip_u d < 1)%Q -> ~ (flip_u d == 1 # 2)%Q ->
     (flip_u d' == 1 - flip_u d)%Q ->
     flip_decision d' = negb (flip_decision d)).
Proof.
  intros Hha Hwa Hhb Hwb Ha Hb. split; [|split].
  - destruct (resize_nearest_ok 542 542 ha wa 3 input_image Hha Hwa Ha)
      as (ra & Era & Hra & _).
    destruct (resize_nearest_ok 542 542 hb wb 3 real_image Hhb Hwb Hb)
      as (rb & Erb & Hrb & _).
    exists ra, rb. split; [exact Era|]. split; [exact Erb|].
    unfold random_jitter, resize. rewrite Era, Erb.
    unfold mbind, result_bind.
    rewrite (random_crop_ok d ra rb Hra Hrb).
    unfold jitter_geometry. destruct (flip_decision d); reflexivity.
  - apply flip_decision_spec.
  - intros d' [H0 H1] Hne Hd'.
    destruct (flip_decision d) eqn:E; cbn [negb].
    + apply flip_decision_spec in E.
      destruct (flip_decision d') eqn:E'; [|reflexivity].
      apply flip_decision_spec in E'. exfalso. lra.
    + apply flip_decision_spec.
      assert (~ (1 # 2 < flip_u d)%Q) as Hn.
      { intros Hc. apply flip_decision_spec in Hc. congruence. }
      lra.
Qed.

(* ===================================================================== *)
(** * 13. The derived path of the target                                  *)
(* ===================================================================== *)



Lemma append_cons (x : Ascii.ascii) (a s : string) :
  String x a +:+ s = String x (a +:+ s).
Proof. reflexivity. Qed.

Lemma append_assoc (a b c : string) : (a +:+ b) +:+ c = a +:+ (b +:+ c).
Proof.
  induction a as [|x a IH]; [reflexivity|].
  rewrite !append_cons. by rewrite IH.
Qed.

Lemma length_append (a b : string) :
  String.length (a +:+ b) = String.length a + String.length b.
Proof.
  induction a as [|x a IH]; [reflexivity|].
  change (String x a +:+ b) with (String x (a +:+ b)).
  cbn [String.length]. by rewrite IH.
Qed.

Lemma strip_prefix_length (old s r : string) :
  strip_prefix old s = Some r ->
  String.length s = String.length old + String.length r.
Proof.
  revert s. induction old as [|o old IH]; intros s H; simpl in *.
  - by inversion H.
  - destruct s as [|x s]; [discriminate|].
    destruct (decide (o = x)); [|discriminate].
    simpl. by rewrite (IH s H).
Qed.

(** More positions than the string has characters change nothing. *)
Lemma replace_scan_fuel (old new : string) (n m : nat) (s : string) :
  old <> EmptyString ->
  String.length s <= n -> String.length s <= m ->
  replace_scan n old new s = replace_scan m old new s.
Proof.
  intros Hold. revert m s.
  induction n as [|n IH]; intros m s Hn Hm.
  - destruct s; simpl in Hn; [|lia]. destruct m; reflexivity.
  - destruct m as [|m].
    + destruct s; simpl in Hm; [|lia]. reflexivity.
    + destruct s as [|c s]; [reflexivity|].
      cbn [replace_scan]. simpl in Hn, Hm.
      destruct (strip_prefix old (String c s)) as [r|] eqn:E.
      * apply strip_prefix_length in E. simpl in E.
        destruct old as [|o old]; [done|]. simpl in E.
        f_equal. apply IH; lia.
      * f_equal. apply IH; lia.
Qed.

(** A match cannot reach over a character that [old] does not have. *)
Lemma strip_prefix_sep (old a b : string) (c : Ascii.ascii) :
  has_char c old = false ->
  strip_prefix old (a +:+ String c b)
  = (fun r => r +:+ String c b) <$> strip_prefix old a.
Proof.
  revert a. induction old as [|o old IH]; intros a Hc; [reflexivity|].
  simpl in Hc. destruct (decide (o = c)) as [|Hoc]; [discriminate|].
  destruct a as [|x a].
  - simpl. by rewrite decide_False.
  - rewrite append_cons. simpl.
    destruct (decide (o = x)); [|reflexivity]. by apply IH.
Qed.

Lemma replace_scan_sep (old new : string) (c : Ascii.ascii) (n : nat) (a b : string) :
  old <> EmptyString -> has_char c old = false ->
  String.length (a +:+ String c b) <= n ->
  replace_scan n old new (a +:+ String c b)
  = replace_scan (String.length a) old new a
    +:+ String c (replace_scan (String.length b) old new b).
Proof.
  intros Hold Hc. revert a.
  induction n as [|n IH]; intros a Hn.
  - destruct a; simpl in Hn; lia.
  - destruct a as [|x a].
    + change (EmptyString +:+ String c b) with (String c b) in *.
      cbn [replace_scan String.length].
      assert (E : strip_prefix old (String c b) = None).
      { pose proof (strip_prefix_sep old EmptyString b c Hc) as E.
        change (EmptyString +:+ String c b) with (String c b) in E.
        rewrite E. destruct old; [done|]. reflexivity. }
      rewrite E.
      change (String c (replace_scan n old new b)
              = String c (replace_scan (String.length b) old new b)).
      f_equal. simpl in Hn. apply replace_scan_fuel; [done|lia..].
    + rewrite append_cons in *. simpl in Hn.
      cbn [replace_scan String.length].
      pose proof (strip_prefix_sep old (String x a) b c Hc) as E.
      rewrite append_cons in E. rewrite E.
      destruct (strip_prefix old (String x a)) as [r|] eqn:Er; simpl.
      * pose proof (strip_prefix_length _ _ _ Er) as Hlen. simpl in Hlen.
        assert (Hl : String.length (r +:+ String c b) <= n).
        { clear -Hn Hlen Hold. destruct old; [done|]. simpl in Hlen.
          revert Hn. generalize (String c b). intros t.
          rewrite !length_append. lia. }
        rewrite (IH r Hl). rewrite append_assoc. do 2 f_equal.
        apply replace_scan_fuel; [done|lia|].
        destruct old; [done|]. simpl in Hlen. lia.
      * rewrite append_cons. f_equal. apply IH. lia.
Qed.

Lemma replace_sep (old new : string) (c : Ascii.ascii) (a b : string) :
  old <> EmptyString -> has_char c old = false ->
  replace old new (a +:+ String c b)
  = replace old new a +:+ String c (replace old new b).
Proof.
  intros Hold Hc. unfold replace. destruct old as [|o old]; [done|].
  by apply replace_scan_sep.
Qed.

Lemma replace_absent (old new s : string) :
  old <> EmptyString -> occurs old s = false -> replace old new s = s.
Proof.
  intros Hold Hocc. unfold replace. destruct old as [|o old]; [done|].
  clear Hold. revert Hocc. generalize (String o old). intros t.
  induction s as [|x s IH]; intros Hocc; [reflexivity|].
  cbn [String.length replace_scan].
  simpl in Hocc. destruct (strip_prefix t (String x s)); [discriminate|].
  f_equal. by apply IH.
Qed.

(** On a path [dir/input/base.jpg] whose directory and base name contain
    neither "input" nor "jpg", the two replacements rewrite the directory
    token and the extension and nothing else. *)
Lemma target_path_clean (dir base : string) :
  occurs "input" dir = false -> occurs "jpg" dir = false ->
  occurs "input" base = false -> occurs "jpg" base = false ->
  target_path (dir +:+ "/input/" +:+ base +:+ ".jpg")
  = dir +:+ "/output/" +:+ base +:+ ".png".
Proof.
  intros Hd1 Hd2 Hb1 Hb2. unfold target_path.
  change (dir +:+ "/input/" +:+ base +:+ ".jpg")
    with (dir +:+ String "/"%char
                     ("input" +:+ String "/"%char (base +:+ String "."%char "jpg"))).
  rewrite (replace_sep "input" "output" "/"%char dir) by done.
  rewrite (replace_sep "input" "output" "/"%char "input") by done.
  rewrite (replace_sep "input" "output" "."%char base) by done.
  rewrite (replace_absent "input" "output" dir) by done.
  rewrite (replace_absent "input" "output" base) by done.
  change (replace "input" "output" "input") with "output".
  change (replace "input" "output" "jpg") with "jpg".
  rewrite (replace_sep "jpg" "png" "/"%char dir) by done.
  rewrite (replace_sep "jpg" "png" "/"%char "output") by done.
  rewrite (replace_sep "jpg" "png" "."%char base) by done.
  rewrite (replace_absent "jpg" "png" dir) by done.
  rewrite (replace_absent "jpg" "png" base) by done.
  reflexivity.
Qed.

(** On such a path the replacements in the other direction lead back,
    when the directory and base name contain neither "output" nor "png". *)
Lemma source_path_target_path (dir base : string) :
  occurs "input" dir = false -> occurs "jpg" dir = false ->
  occurs "input" base = false -> occurs "jpg" base = false ->
  occurs "output" dir = false -> occurs "png" dir = false ->
  occurs "output" base = false -> occurs "png" base = false ->
  source_path (target_path (dir +:+ "/input/" +:+ base +:+ ".jpg"))
  = dir +:+ "/input/" +:+ base +:+ ".jpg".
Proof.
  intros Hd1 Hd2 Hb1 Hb2 Hd3 Hd4 Hb3 Hb4.
  rewrite (target_path_clean dir base Hd1 Hd2 Hb1 Hb2). unfold source_path.
  change (dir +:+ "/output/" +:+ base +:+ ".png")
    with (dir +:+ String "/"%char
                     ("output" +:+ String "/"%char (base +:+ String "."%char "png"))).
  rewrite (replace_sep "output" "input" "/"%char dir) by done.
  rewrite (replace_sep "output" "input" "/"%char "output") by done.
  rewrite (replace_sep "output" "input" "."%char base) by done.
  rewrite (replace_absent "output" "input" dir) by done.
  rewrite (replace_absent "output" "input" base) by done.
  change (replace "output" "input" "output") with "input".
  change (replace "output" "input" "png") with "png".
  rewrite (replace_sep "png" "jpg" "/"%char dir) by done.
  rewrite (replace_sep "png" "jpg" "/"%char "input") by done.
  rewrite (replace_sep "png" "jpg" "."%char base) by done.
  rewrite (replace_absent "png" "jpg" dir) by done.
  rewrite (replace_absent "png" "jpg" base) by done.
  reflexivity.
Qed.

(** C5.  A path that the glob of line 170 can deliver, whose base name
    contains "input": the replacement of line 22 is not confined to the
    directory token, the base name is rewritten too, and the derived path
    is not the one with the same base name. *)
Theorem target_path_rewrites_basename :
  target_path "/data/dataset/training/input/input_007.jpg"
  = "/data/dataset/training/output/output_007.png" /\
  target_path "/data/dataset/training/input/input_007.jpg"
  <> "/data/dataset/training/output/input_007.png".
Proof. split; [vm_compute; reflexivity|]. vm_compute. discriminate. Qed.

(** Two inputs with one derived target: the transformation cannot be
    reversed. *)
Example target_path_not_injective :
  target_path "/data/dataset/training/input/input_007.jpg"
  = target_path "/data/dataset/training/input/output_007.jpg".
Proof. vm_compute. reflexivity. Qed.

(** The directory of the script takes part in the replacement as well. *)
Example target_path_rewrites_dirname :
  target_path "/home/jpgs/dataset/training/input/007.jpg"
  = "/home/pngs/dataset/training/output/007.png".
Proof. vm_compute. reflexivity. Qed.

(* ===================================================================== *)
(** * 14. The loader                                                      *)
(* ===================================================================== *)

Section LoaderFacts.

Variable decode_jpeg : list Byte.byte -> option (image Z).
Variable files : gmap string (list Byte.byte).

Lemma load_ok_iff (p : string) (a b : image Q) :
  load decode_jpeg files p = Ok (a, b) <->
  exists ci co ia ib,
    files !! p = Some ci /\ decode_jpeg ci = Some ia /\
    files !! target_path p = Some co /\ decode_jpeg co = Some ib /\
    a = cast_float32 ia /\ b = cast_float32 ib.
Proof.
  unfold load, read_file, tf_decode_jpeg, target_path, mbind, result_bind.
  split.
  - intros H.
    destruct (files !! p) as [ci|]; [|discriminate].
    destruct (decode_jpeg ci) as [ia|] eqn:Eia; [|discriminate].
    destruct (files !! replace "jpg" "png" (replace "input" "output" p))
      as [co|]; [|discriminate].
    destruct (decode_jpeg co) as [ib|] eqn:Eib; [|discriminate].
    inversion H; subst. by exists ci, co, ia, ib.
  - intros (ci & co & ia & ib & H1 & H2 & H3 & H4 & -> & ->).
    by rewrite H1, H2, H3, H4.
Qed.

Lemma load_missing_target (p : string) (ci : list Byte.byte) :
  files !! p = Some ci ->
  files !! target_path p = None ->
  exists e, load decode_jpeg files p = Err e.
Proof.
  intros Hin Hout.
  unfold load, read_file, tf_decode_jpeg, mbind, result_bind.
  fold (target_path p). rewrite Hin, Hout.
  destruct (decode_jpeg ci); eauto.
Qed.

End LoaderFacts.

(** C9.  [load] has one decoder, [decode_jpeg], and applies it to the
    contents of the input and to the contents of the file at the derived
    path: a pair is loaded exactly when both files exist and [decode_jpeg]
    accepts both contents, and a target whose contents [decode_jpeg]
    rejects makes the load fail with the decoder's error at the derived
    path. *)
Theorem load_decodes_target_with_decode_jpeg
    (decode_jpeg : list Byte.byte -> option (image Z))
    (files : gmap string (list Byte.byte)) (p : string) :
  (forall a b,
     load decode_jpeg files p = Ok (a, b) <->
     exists ci co ia ib,
       files !! p = Some ci /\ decode_jpeg ci = Some ia /\
       files !! target_path p = Some co /\ decode_jpeg co = Some ib /\
       a = cast_float32 ia /\ b = cast_float32 ib) /\
  (forall ci co ia,
     files !! p = Some ci /\ decode_jpeg ci = Some ia /\
     files !! target_path p = Some co /\ decode_jpeg co = None ->
     load decode_jpeg files p = Err (InvalidImageError (target_path p))).
Proof.
  split.
  - intros a b. apply load_ok_iff.
  - intros ci co ia (H1 & H2 & H3 & H4).
    unfold load, read_file, tf_decode_jpeg, mbind, result_bind.
    fold (target_path p). by rewrite H1, H2, H3, H4.
Qed.

(* ===================================================================== *)
(** * 15. The training step                                               *)
(* ===================================================================== *)

Section TrainingFacts.

Variable tensor : Type.
Variable generator : model tensor (batch Q).
Variable discriminator : model tensor tensor.
Variable generator_loss : tensor -> batch Q -> batch Q -> tensor * tensor * tensor.
Variable discriminator_loss : tensor -> tensor -> tensor.
Variable partial :
  (gmap positive tensor -> tensor) -> gmap positive tensor -> positive -> tensor.
Variable adam :
  nat -> option (tensor * tensor) -> tensor -> tensor -> tensor * (tensor * tensor).

Lemma apply_one_frame (t : nat)
    (acc : gmap positive tensor * gmap positive (tensor * tensor))
    (gv : tensor * positive) (v : positive) :
  v <> gv.2 ->
  (apply_one tensor adam t acc gv).1 !! v = acc.1 !! v /\
  (apply_one tensor adam t acc gv).2 !! v = acc.2 !! v.
Proof.
  intros Hne. destruct acc as [vars sl], gv as [g v']. simpl in *.
  destruct (vars !! v') as [x|]; [|done].
  destruct (adam t (sl !! v') g x) as [x' s']. simpl.
  by rewrite !lookup_insert_ne.
Qed.

Lemma foldl_apply_one_frame (t : nat) (gvs : list (tensor * positive))
    (acc : gmap positive tensor * gmap positive (tensor * tensor))
    (v : positive) :
  v ∉ map snd gvs ->
  (foldl (apply_one tensor adam t) acc gvs).1 !! v = acc.1 !! v /\
  (foldl (apply_one tensor adam t) acc gvs).2 !! v = acc.2 !! v.
Proof.
  revert acc. induction gvs as [|gv gvs IH]; intros acc Hv; [done|].
  simpl in *. rewrite not_elem_of_cons in Hv. destruct Hv as [Hne Hv].
  destruct (IH (apply_one tensor adam t acc gv) Hv) as [E1 E2].
  destruct (apply_one_frame t acc gv v Hne) as [F1 F2].
  rewrite E1, E2. done.
Qed.

Lemma snd_zip_subset (gs : list tensor) (vs : list positive) (v : positive) :
  v ∈ map snd (zip gs vs) -> v ∈ vs.
Proof.
  revert gs. induction vs as [|v' vs IH]; intros gs H.
  - destruct gs; simpl in H; by apply elem_of_nil in H.
  - destruct gs as [|g gs]; simpl in H; [by apply elem_of_nil in H|].
    apply elem_of_cons in H as [->|H]; [left|right; eauto].
Qed.

(** An update touches no variable outside the list it is given. *)
Lemma apply_gradients_frame (opt : optimizer tensor) (gs : list tensor)
    (vs : list positive) (vars : gmap positive tensor) (v : positive) :
  v ∉ vs ->
  (apply_gradients tensor adam opt (zip gs vs) vars).1 !! v = vars !! v.
Proof.
  intros Hv. unfold apply_gradients.
  destruct (foldl_apply_one_frame (S (iterations opt)) (zip gs vs)
              (vars, slots opt) v) as [E _].
  { intros Hin. apply Hv. by eapply snd_zip_subset. }
  destruct (foldl _ _ _) as [vars' sl']. exact E.
Qed.

(** The value an update leaves in a variable of its list: the Adam
    rule applied to the gradient paired with that variable. *)
Lemma foldl_apply_one_lookup (t : nat) (vs : list positive) (gs : list tensor)
    (vars : gmap positive tensor) (sl : gmap positive (tensor * tensor))
    (i : nat) (v : positive) (g x : tensor) :
  NoDup vs -> vs !! i = Some v -> gs !! i = Some g -> vars !! v = Some x ->
  (foldl (apply_one tensor adam t) (vars, sl) (zip gs vs)).1 !! v
  = Some (adam t (sl !! v) g x).1.
Proof.
  revert gs vars sl i.
  induction vs as [|v0 vs IH]; intros gs vars sl i Hnd Hv Hg Hx.
  - by rewrite lookup_nil in Hv.
  - apply NoDup_cons in Hnd as [Hv0 Hnd].
    destruct gs as [|g0 gs]; [by rewrite lookup_nil in Hg|].
    destruct i as [|i]; simpl in Hv, Hg.
    + inversion Hv; inversion Hg; subst. simpl. rewrite Hx.
      destruct (adam t (sl !! v) g x) as [x' s'] eqn:E. simpl.
      destruct (foldl_apply_one_frame t (zip gs vs)
                  (<[v:=x']> vars, <[v:=s']> sl) v) as [F _].
      { intros Hin. apply Hv0. by eapply snd_zip_subset. }
      rewrite F. simpl. by rewrite lookup_insert_eq.
    + assert (Hne : v <> v0).
      { intros ->. apply Hv0. by eapply list_elem_of_lookup_2. }
      change (foldl (apply_one tensor adam t) (vars, sl)
                (zip (g0 :: gs) (v0 :: vs)))
        with (foldl (apply_one tensor adam t)
                (apply_one tensor adam t (vars, sl) (g0, v0)) (zip gs vs)).
      pose proof (apply_one_frame t (vars, sl) (g0, v0) v Hne) as HF.
      destruct (apply_one tensor adam t (vars, sl) (g0, v0)) as [vars' sl'].
      destruct HF as [F1 F2]. simpl in F1, F2. rewrite <- F2.
      eapply IH; eauto. by rewrite F1.
Qed.

Lemma apply_gradients_lookup (opt : optimizer tensor)
    (target : gmap positive tensor -> tensor) (vars0 vars : gmap positive tensor)
    (vs : list positive) (v : positive) (x : tensor) :
  NoDup vs -> v ∈ vs -> vars !! v = Some x ->
  (apply_gradients tensor adam opt
     (zip (tape_gradient tensor partial target vars0 vs) vs) vars).1 !! v
  = Some (adam (S (iterations opt)) (slots opt !! v)
               (partial target vars0 v) x).1.
Proof.
  intros Hnd Hin Hx.
  apply list_elem_of_lookup in Hin as [i Hi].
  unfold apply_gradients.
  pose proof (foldl_apply_one_lookup (S (iterations opt)) vs
                (tape_gradient tensor partial target vars0 vs) vars (slots opt)
                i v (partial target vars0 v) x Hnd Hi) as E.
  destruct (foldl _ _ _) as [vars' sl']. apply E; [|exact Hx].
  unfold tape_gradient.
  change (map (partial target vars0) vs) with (partial target vars0 <$> vs).
  by rewrite list_lookup_fmap, Hi.
Qed.

Local Abbreviation gen_vars := (trainable_variables generator).
Local Abbreviation disc_vars := (trainable_variables discriminator).
Local Abbreviation gen_update :=
  (generator_update tensor generator discriminator generator_loss
     discriminator_loss partial adam).
Local Abbreviation disc_update :=
  (discriminator_update tensor generator discriminator generator_loss
     discriminator_loss partial adam).
Local Abbreviation g_loss :=
  (gen_total_loss tensor generator discriminator generator_loss
     discriminator_loss).
Local Abbreviation d_loss :=
  (disc_loss tensor generator discriminator generator_loss
     discriminator_loss).

(** C1.  One call of [train_step] on a batch, for two models that share no
    variable.  The generator's gradients are the derivatives of the
    generator's total loss, one per generator variable, and the
    discriminator's those of the discriminator loss, one per discriminator
    variable, both taken at the values the variables have on entry.  Each
    update leaves every variable outside its own model as it was: the
    generator's update changes no discriminator variable and the
    discriminator's update changes no generator variable.  The value a
    variable has after the step is the Adam rule applied to its own
    model's gradient and to nothing else. *)
Theorem train_step_gradient_isolation (w : world tensor)
    (input_image target : batch Q) (step : Z) :
  NoDup gen_vars -> NoDup disc_vars ->
  Forall (fun v => v ∉ disc_vars) gen_vars ->
  let vars0 := variables w in
  let vars1 := (gen_update w input_image target).1 in
  let vars2 := (disc_update w input_image target vars1).1 in
  variables (train_step tensor generator discriminator generator_loss
               discriminator_loss partial adam w input_image target step).1
  = vars2 /\
  generator_gradients tensor generator discriminator generator_loss
    discriminator_loss partial input_image target vars0
  = map (partial (g_loss input_image target) vars0) gen_vars /\
  discriminator_gradients tensor generator discriminator generator_loss
    discriminator_loss partial input_image target vars0
  = map (partial (d_loss input_image target) vars0) disc_vars /\
  (forall v, v ∉ gen_vars -> vars1 !! v = vars0 !! v) /\
  (forall v, v ∉ disc_vars -> vars2 !! v = vars1 !! v) /\
  (forall v, v ∈ disc_vars -> vars1 !! v = vars0 !! v) /\
  (forall v, v ∈ gen_vars -> vars2 !! v = vars1 !! v) /\
  (forall v x, v ∈ gen_vars -> vars0 !! v = Some x ->
     vars2 !! v
     = Some (adam (S (iterations (generator_optimizer w)))
                  (slots (generator_optimizer w) !! v)
                  (partial (g_loss input_image target) vars0 v) x).1) /\
  (forall v x, v ∈ disc_vars -> vars0 !! v = Some x ->
     vars2 !! v
     = Some (adam (S (iterations (discriminator_optimizer w)))
                  (slots (discriminator_optimizer w) !! v)
                  (partial (d_loss input_image target) vars0 v) x).1).
Proof.
  intros Hndg Hndd Hdisj vars0 vars1 vars2.
  rewrite Forall_forall in Hdisj.
  assert (Hframe1 : forall v, v ∉ gen_vars -> vars1 !! v = vars0 !! v).
  { intros v Hv. subst vars1 vars0. unfold generator_update.
    by apply apply_gradients_frame. }
  assert (Hframe2 : forall v, v ∉ disc_vars -> vars2 !! v = vars1 !! v).
  { intros v Hv. subst vars2. unfold discriminator_update.
    by apply apply_gradients_frame. }
  assert (Hdisj' : forall v, v ∈ disc_vars -> v ∉ gen_vars).
  { intros v Hd Hg. by apply (Hdisj v Hg). }
  split_and!.
  - unfold train_step. fold vars0.
    subst vars2 vars1.
    destruct (gen_update w input_image target) as [v1 o1]. cbn [fst].
    destruct (disc_update w input_image target v1) as [v2 o2]. reflexivity.
  - reflexivity.
  - reflexivity.
  - exact Hframe1.
  - exact Hframe2.
  - intros v Hv. apply Hframe1. by apply Hdisj'.
  - intros v Hv. apply Hframe2. by apply Hdisj.
  - intros v x Hv Hx. rewrite Hframe2 by (by apply Hdisj).
    subst vars1. unfold generator_update, generator_gradients.
    by apply apply_gradients_lookup.
  - intros v x Hv Hx. subst vars2.
    unfold discriminator_update, discriminator_gradients.
    apply apply_gradients_lookup; [done..|].
    rewrite Hframe1 by (by apply Hdisj'). exact Hx.
Qed.

(** The generator's total loss is the first component of
    [generator_loss] and does not involve [discriminator_loss]; the
    discriminator's loss is [discriminator_loss] of the two scores. *)
Lemma losses_unfold (input_image target : batch Q)
    (vars : gmap positive tensor) :
  let gen_output := forward generator vars true [input_image] in
  let real := forward discriminator vars true [input_image; target] in
  let fake := forward discriminator vars true [input_image; gen_output] in
  g_loss input_image target vars
  = (generator_loss fake gen_output target).1.1 /\
  d_loss input_image target vars = discriminator_loss real fake.
Proof.
  cbv zeta. unfold gen_total_loss, disc_loss, losses.
  destruct (generator_loss _ _ _) as [[a b] c]. split; reflexivity.
Qed.

End TrainingFacts.

(* ===================================================================== *)
(** * 16. Dataset streams                                                 *)
(* ===================================================================== *)



Section StreamFacts.

Context {A : Type}.
Variable P : string -> Prop.

Lemma loads_of_app (tr1 tr2 : trace) :
  loads_of P tr1 -> loads_of P tr2 -> loads_of P (tr1 ++ tr2).
Proof. intros H1 H2. apply Forall_app. done. Qed.

Lemma elem_inv_prepend {B} (tr : trace) (x : trace * result B) :
  loads_of P tr -> elem_inv P x -> elem_inv P (tr ++ x.1, x.2).
Proof.
  intros Htr Hx. unfold elem_inv in *. cbn [fst snd].
  destruct (x.2) as [b|e].
  - by apply loads_of_app.
  - destruct Hx as (pre & q & -> & Hpre).
    exists (tr ++ pre), q. split; [by rewrite app_assoc|].
    by apply loads_of_app.
Qed.

Lemma pick_Some (r : nat) (buf : list A) :
  buf <> [] -> exists x buf', pick r buf = Some (x, buf') /\ buf ≡ₚ x :: buf'.
Proof.
  intros Hne. unfold pick.
  assert (Hlt : r mod length buf < length buf).
  { apply Nat.mod_upper_bound. destruct buf; [done|]. simpl. lia. }
  destruct (lookup_lt_is_Some_2 _ _ Hlt) as [x Hx]. rewrite Hx.
  eexists _, _. split; [reflexivity|]. by apply delete_Permutation.
Qed.

Lemma shuffle_all_Permutation (tape : nat -> nat) (pos n : nat) (buf : list A) :
  n = length buf -> shuffle_all tape pos n buf ≡ₚ buf.
Proof.
  revert pos buf. induction n as [|n IH]; intros pos buf Hn.
  - destruct buf; [done|discriminate].
  - simpl. destruct (pick_Some (tape pos) buf) as (x & buf' & E & Hperm).
    { intros ->. discriminate. }
    rewrite E. rewrite Hperm. constructor. apply IH.
    apply Permutation_length in Hperm. simpl in Hperm. lia.
Qed.

Lemma fill_inv (B : nat) (buf : list A) (up : stream A) :
  stream_inv P up ->
  match fill B buf up with
  | (tr, Ok (buf', up')) => loads_of P tr /\ stream_inv P up'
  | (tr, Err _) => exists pre q, tr = pre ++ [EvLoad q] /\ loads_of P pre
  end.
Proof.
  revert buf. induction up as [|[tr r] up IH]; intros buf Hup.
  - simpl. split; constructor.
  - simpl. destruct (decide (B <= length buf)).
    { split; [constructor|exact Hup]. }
    apply Forall_cons in Hup as [Hx Hup].
    destruct r as [x|e].
    + specialize (IH (buf ++ [x]) Hup).
      destruct (fill B (buf ++ [x]) up) as [tr' [[buf' up']|e]].
      * destruct IH as [Htr' Hup']. split; [|done].
        apply loads_of_app; [exact Hx|exact Htr'].
      * destruct IH as (pre & q & -> & Hpre).
        exists (tr ++ pre), q. split; [by rewrite app_assoc|].
        apply loads_of_app; [exact Hx|exact Hpre].
    + exact Hx.
Qed.

Lemma shuffle_go_inv (B : nat) (tape : nat -> nat) (pos fuel : nat)
    (buf : list A) (up : stream A) :
  stream_inv P up -> stream_inv P (shuffle_go B tape pos fuel buf up).
Proof.
  revert pos buf up. induction fuel as [|fuel IH]; intros pos buf up Hup.
  - constructor.
  - simpl. pose proof (fill_inv B buf up Hup) as Hfill.
    destruct (fill B buf up) as [tr [[buf' up']|e]].
    + destruct Hfill as [Htr Hup'].
      destruct (pick (tape pos) buf') as [[x buf'']|]; [|constructor].
      constructor; [exact Htr|]. by apply IH.
    + constructor; [exact Hfill|constructor].
Qed.

Lemma batch_go_inv (size k : nat) (tr : trace) (acc : list A) (s : stream A) :
  loads_of P tr -> stream_inv P s ->
  stream_inv P (batch_go size k tr acc s).
Proof.
  revert k tr acc. induction s as [|[tr' r] s IH]; intros k tr acc Htr Hs.
  - simpl. destruct acc; [constructor|].
    constructor; [exact Htr|constructor].
  - apply Forall_cons in Hs as [Hx Hs]. simpl. destruct r as [x|e].
    + assert (Happ : loads_of P (tr ++ tr')) by (apply loads_of_app; done).
      destruct k as [|[|k]].
      * constructor; [exact Happ|]. apply IH; [constructor|done].
      * constructor; [exact Happ|]. apply IH; [constructor|done].
      * by apply IH.
    + constructor; [|constructor].
      exact (elem_inv_prepend tr (tr', Err e) Htr Hx).
Qed.

Lemma fill_all_ok (B : nat) (buf : list A) (up : stream A) :
  all_ok up -> 0 < B ->
  exists tr buf' up',
    fill B buf up = (tr, Ok (buf', up')) /\ all_ok up' /\
    length buf' + length up' = length buf + length up /\
    (0 < length buf + length up -> buf' <> []).
Proof.
  revert buf. induction up as [|[tr r] up IH]; intros buf Hup HB.
  - simpl. exists [], buf, []. split_and!; [done|constructor|done|].
    intros Hlen ->. simpl in Hlen. lia.
  - simpl. destruct (decide (B <= length buf)).
    { exists [], buf, ((tr, r) :: up). split_and!; [done..|].
      intros _ ->. simpl in *. lia. }
    apply Forall_cons in Hup as [Hx Hup]. simpl in Hx.
    destruct r as [x|e]; [|discriminate].
    destruct (IH (buf ++ [x]) Hup HB) as (tr' & buf' & up' & E & Hok & Hlen & Hne).
    rewrite E. exists (tr ++ tr'), buf', up'. split_and!; [done..| |].
    + rewrite Hlen, length_app. simpl. lia.
    + intros _. apply Hne. rewrite length_app. simpl. lia.
Qed.

Lemma shuffle_go_all_ok (B : nat) (tape : nat -> nat) (pos fuel : nat)
    (buf : list A) (up : stream A) :
  all_ok up -> 0 < B -> fuel = length buf + length up ->
  all_ok (shuffle_go B tape pos fuel buf up) /\
  length (shuffle_go B tape pos fuel buf up) = fuel.
Proof.
  revert pos buf up. induction fuel as [|fuel IH]; intros pos buf up Hup HB Hf.
  - split; [constructor|done].
  - simpl.
    destruct (fill_all_ok B buf up Hup HB) as (tr & buf' & up' & E & Hok & Hlen & Hne).
    rewrite E.
    destruct (pick_Some (tape pos) buf') as (x & buf'' & Epick & Hperm).
    { apply Hne. lia. }
    rewrite Epick.
    apply Permutation_length in Hperm. simpl in Hperm.
    destruct (IH (S pos) buf'' up' Hok HB) as [IH1 IH2]; [lia|].
    split; [by constructor|]. simpl. by rewrite IH2.
Qed.

Lemma batch_go_all_ok (size k : nat) (tr : trace) (acc : list A) (s : stream A) :
  all_ok s ->
  all_ok (batch_go size k tr acc s) /\
  (s <> [] -> batch_go size k tr acc s <> []).
Proof.
  revert k tr acc. induction s as [|[tr' r] s IH]; intros k tr acc Hs.
  - simpl. split; [|done]. destruct acc; repeat constructor.
  - apply Forall_cons in Hs as [Hx Hs]. simpl in Hx.
    destruct r as [x|e]; [|discriminate]. simpl.
    destruct k as [|[|k]].
    + split; [|done]. constructor; [done|]. by apply IH.
    + split; [|done]. constructor; [done|]. by apply IH.
    + destruct (IH (S k) (tr ++ tr') (x :: acc) Hs) as [IH1 IH2].
      split; [exact IH1|]. intros _.
      destruct s as [|y s]; [simpl; done|]. by apply IH2.
Qed.

End StreamFacts.

Lemma ds_map_inv {A B} (P : string -> Prop) (R : A -> Prop)
    (f : nat -> A -> trace * result B) (s : stream A) :
  (forall i a, R a -> elem_inv P (f i a)) ->
  values_in R s -> stream_inv P s -> stream_inv P (ds_map f s).
Proof.
  unfold ds_map. revert f.
  induction s as [|[tr r] s IH]; intros f Hf Hv Hs; [constructor|].
  apply Forall_cons in Hv as [Hv0 Hv]. apply Forall_cons in Hs as [Hs0 Hs].
  rewrite imap_cons. constructor.
  - destruct r as [a|e]; [|exact Hs0].
    specialize (Hf 0 a (Hv0 a eq_refl)).
    destruct (f 0 a) as [tr' b].
    exact (elem_inv_prepend P tr (tr', b) Hs0 Hf).
  - apply (IH (fun i => f (S i))); [|done..]. intros i a. apply Hf.
Qed.

Lemma ds_map_all_ok {A B} (R : A -> Prop)
    (f : nat -> A -> trace * result B) (s : stream A) :
  (forall i a, R a -> is_ok (f i a).2 = true) ->
  values_in R s -> all_ok s ->
  all_ok (ds_map f s) /\ length (ds_map f s) = length s.
Proof.
  intros Hf Hv Hs. split; [|apply length_imap].
  unfold ds_map. revert f Hf.
  induction s as [|[tr r] s IH]; intros f Hf; [constructor|].
  apply Forall_cons in Hv as [Hv0 Hv]. apply Forall_cons in Hs as [Hs0 Hs].
  rewrite imap_cons. constructor.
  - simpl in Hs0. destruct r as [a|e]; [|discriminate].
    specialize (Hf 0 a (Hv0 a eq_refl)).
    destruct (f 0 a) as [tr' b]. exact Hf.
  - apply (IH Hv Hs (fun i => f (S i))). intros i a. apply Hf.
Qed.

Lemma list_files_facts (P : string -> Prop) (matched : list string)
    (tape : nat -> nat) :
  stream_inv P (list_files matched tape) /\
  all_ok (list_files matched tape) /\
  values_in (fun p => p ∈ matched) (list_files matched tape) /\
  length (list_files matched tape) = length matched.
Proof.
  unfold list_files.
  pose proof (shuffle_all_Permutation tape 0 (length matched) matched eq_refl)
    as Hperm.
  split_and!.
  - apply Forall_map, Forall_forall. intros p _. constructor.
  - apply Forall_map, Forall_forall. intros p _. reflexivity.
  - apply Forall_map, Forall_forall. intros p Hp a Ha.
    simpl in Ha. inversion Ha; subst. by rewrite <- Hperm.
  - rewrite length_map. by apply Permutation_length.
Qed.

Lemma ds_batch_inv {A} (P : string -> Prop) (size : nat) (s : stream (A * A)) :
  stream_inv P s -> stream_inv P (ds_batch size s).
Proof.
  intros Hs. unfold ds_batch.
  assert (Hnil : loads_of P []) by constructor.
  pose proof (batch_go_inv P size size [] [] s Hnil Hs) as H.
  apply Forall_map. eapply Forall_impl; [exact H|].
  intros [tr [l|e]] Hx; exact Hx.
Qed.

Lemma ds_batch_all_ok {A} (size : nat) (s : stream (A * A)) :
  all_ok s ->
  all_ok (ds_batch size s) /\ (s <> [] -> ds_batch size s <> []).
Proof.
  intros Hs. unfold ds_batch.
  destruct (batch_go_all_ok size size [] [] s Hs) as [H1 H2]. split.
  - apply Forall_map. eapply Forall_impl; [exact H1|].
    intros [tr [l|e]] Hx; exact Hx.
  - intros Hne Hmap. apply (H2 Hne).
    destruct (batch_go size size [] [] s); [done|discriminate].
Qed.

(* ===================================================================== *)
(** * 17. The two datasets of the script                                  *)
(* ===================================================================== *)



Section DatasetFacts.

Variable decode_jpeg : list Byte.byte -> option (image Z).
Variable files : gmap string (list Byte.byte).
Variable train_files : list string.
Variable test_files : list string.

Local Abbreviation loads := (pair_loads decode_jpeg files).



Lemma loadable_load (p : string) :
  loadable decode_jpeg files p ->
  exists ia ib,
    load decode_jpeg files p = Ok (cast_float32 ia, cast_float32 ib) /\
    well_formed3 ia /\ well_formed3 ib.
Proof.
  unfold loadable. intros H.
  destruct (files !! p) as [ci|] eqn:E1; [|done].
  destruct (files !! target_path p) as [co|] eqn:E2; [|done].
  destruct (decode_jpeg ci) as [ia|] eqn:E3; [|done].
  destruct (decode_jpeg co) as [ib|] eqn:E4; [|done].
  exists ia, ib. split; [|exact H].
  apply load_ok_iff. by exists ci, co, ia, ib.
Qed.

Lemma load_image_train_ok (d : draws) (p : string) :
  loadable decode_jpeg files p ->
  is_ok (load_image_train decode_jpeg files d p) = true.
Proof.
  intros H. destruct (loadable_load p H) as (ia & ib & E & (Ha1 & Ha2 & Ha) & (Hb1 & Hb2 & Hb)).
  unfold load_image_train. rewrite E. unfold mbind, result_bind.
  destruct (augmentation_steps d (cast_float32 ia) (cast_float32 ib)
              _ _ _ _ Ha1 Ha2 Hb1 Hb2)
    as (ra & rb & ca & cb & ja & jb & _ & _ & _ & _ & _ & _ & _ & _ & Ej & _).
  { by apply tmap_shape. }
  { by apply tmap_shape. }
  by rewrite Ej.
Qed.

Lemma load_image_test_ok (p : string) :
  loadable decode_jpeg files p ->
  is_ok (load_image_test decode_jpeg files p) = true.
Proof.
  intros H. destruct (loadable_load p H) as (ia & ib & E & (Ha1 & Ha2 & Ha) & (Hb1 & Hb2 & Hb)).
  unfold load_image_test. rewrite E. unfold mbind, result_bind.
  destruct (resize_ok IMG_HEIGHT IMG_WIDTH _ _ _ _ 3
              (cast_float32 ia) (cast_float32 ib) Ha1 Ha2 Hb1 Hb2)
    as (ra & rb & Er & _).
  { by apply tmap_shape. }
  { by apply tmap_shape. }
  by rewrite Er.
Qed.

Lemma load_image_train_elem (d : draws) (p : string) :
  elem_inv loads ([EvLoad p], load_image_train decode_jpeg files d p).
Proof.
  unfold elem_inv. cbn [fst snd].
  destruct (load_image_train decode_jpeg files d p) eqn:E.
  - constructor; [|constructor]. exists p. split; [done|].
    unfold loads. unfold load_image_train in E.
    destruct (load decode_jpeg files p); [done|discriminate].
  - exists [], p. split; [done|constructor].
Qed.

Lemma load_image_test_elem (p : string) :
  elem_inv loads ([EvLoad p], load_image_test decode_jpeg files p).
Proof.
  unfold elem_inv. cbn [fst snd].
  destruct (load_image_test decode_jpeg files p) eqn:E.
  - constructor; [|constructor]. exists p. split; [done|].
    unfold loads. unfold load_image_test in E.
    destruct (load decode_jpeg files p); [done|discriminate].
  - exists [], p. split; [done|constructor].
Qed.

Lemma train_dataset_inv (ed : epoch_draws) :
  stream_inv loads (train_dataset decode_jpeg files train_files ed).
Proof.
  unfold train_dataset.
  destruct (list_files_facts loads train_files (files_draw ed))
    as (H1 & _ & H3 & _).
  apply ds_batch_inv. unfold ds_shuffle. apply shuffle_go_inv.
  eapply ds_map_inv; [|exact H3|exact H1].
  intros i p _. apply load_image_train_elem.
Qed.

Lemma test_dataset_inv (ed : epoch_draws) :
  stream_inv loads (test_dataset decode_jpeg files test_files ed).
Proof.
  unfold test_dataset.
  destruct (list_files_facts loads test_files (files_draw ed))
    as (H1 & _ & H3 & _).
  apply ds_batch_inv.
  eapply ds_map_inv; [|exact H3|exact H1].
  intros i p _. apply load_image_test_elem.
Qed.

Lemma train_dataset_ok (ed : epoch_draws) :
  train_files <> [] ->
  Forall (loadable decode_jpeg files) train_files ->
  all_ok (train_dataset decode_jpeg files train_files ed) /\
  train_dataset decode_jpeg files train_files ed <> [].
Proof.
  intros Hne Hall. rewrite Forall_forall in Hall. unfold train_dataset.
  destruct (list_files_facts loads train_files (files_draw ed))
    as (_ & H2 & H3 & H4).
  set (ds1 := list_files train_files (files_draw ed)) in *.
  set (f := fun (i : nat) (x : string) =>
              ([EvLoad x],
               load_image_train decode_jpeg files (jitter_draw ed i) x)).
  destruct (ds_map_all_ok (fun p => p ∈ train_files) f ds1) as [M1 M2];
    [|exact H3|exact H2|].
  { intros i p Hp. apply load_image_train_ok. by apply Hall. }
  destruct (shuffle_go_all_ok BUFFER_SIZE (buffer_draw ed) 0
              (length (ds_map f ds1)) [] (ds_map f ds1) M1) as [S1 S2].
  { unfold BUFFER_SIZE. lia. }
  { reflexivity. }
  fold (ds_shuffle BUFFER_SIZE (buffer_draw ed) (ds_map f ds1)) in S1, S2.
  destruct (ds_batch_all_ok BATCH_SIZE
              (ds_shuffle BUFFER_SIZE (buffer_draw ed) (ds_map f ds1)) S1)
    as [B1 B2].
  split; [exact B1|]. apply B2. intros Hnil.
  rewrite Hnil in S2. simpl in S2. rewrite M2, H4 in S2.
  destruct train_files; [done|discriminate].
Qed.

Lemma test_dataset_ok (ed : epoch_draws) :
  test_files <> [] ->
  Forall (loadable decode_jpeg files) test_files ->
  all_ok (test_dataset decode_jpeg files test_files ed) /\
  test_dataset decode_jpeg files test_files ed <> [].
Proof.
  intros Hne Hall. rewrite Forall_forall in Hall. unfold test_dataset.
  destruct (list_files_facts loads test_files (files_draw ed))
    as (_ & H2 & H3 & H4).
  set (ds1 := list_files test_files (files_draw ed)) in *.
  set (f := fun (_ : nat) (x : string) =>
              ([EvLoad x], load_image_test decode_jpeg files x)).
  destruct (ds_map_all_ok (fun p => p ∈ test_files) f ds1) as [M1 M2];
    [|exact H3|exact H2|].
  { intros i p Hp. apply load_image_test_ok. by apply Hall. }
  destruct (ds_batch_all_ok BATCH_SIZE (ds_map f ds1) M1) as [B1 B2].
  split; [exact B1|]. apply B2. intros Hnil.
  rewrite Hnil in M2. simpl in M2. rewrite H4 in M2.
  destruct test_files; [done|discriminate].
Qed.

End DatasetFacts.

(* ===================================================================== *)
(** * 18. The training loop                                               *)
(* ===================================================================== *)



Lemma count_events_app (f : event -> bool) (tr1 tr2 : trace) :
  count_events f (tr1 ++ tr2) = count_events f tr1 + count_events f tr2.
Proof. induction tr1 as [|e tr1 IH]; simpl; [done|]. rewrite IH. lia. Qed.

Lemma loads_of_good (P : string -> Prop) (tr : trace) :
  loads_of P tr -> good_events P tr.
Proof.
  intros H. eapply Forall_impl; [exact H|].
  intros e (q & -> & Hq) q' [= <-]. exact Hq.
Qed.

Lemma loads_of_only_loads (P : string -> Prop) (tr : trace) :
  loads_of P tr -> forallb is_load tr = true.
Proof.
  induction 1 as [|e tr (q & -> & _) _ IH]; [done|]. simpl. exact IH.
Qed.

Lemma only_loads_facts (tr : trace) :
  forallb is_load tr = true ->
  forallb training_call tr = true /\
  count_events is_train_step tr = 0 /\
  count_events is_checkpoint tr = 0.
Proof.
  induction tr as [|e tr IH]; [done|]. simpl.
  intros [He Htr]%andb_prop. destruct (IH Htr) as (H1 & H2 & H3).
  destruct e; try discriminate. simpl. by rewrite H1, H2, H3.
Qed.

Lemma no_loads_good (P : string -> Prop) (tr : trace) :
  forallb (fun e => negb (is_load e)) tr = true -> good_events P tr.
Proof.
  induction tr as [|e tr IH]; [constructor|]. simpl.
  intros [He Htr]%andb_prop. constructor; [|by apply IH].
  intros q ->. discriminate.
Qed.

Lemma elem_inv_only_loads {A} (P : string -> Prop) (x : trace * result A) :
  elem_inv P x -> forallb is_load x.1 = true.
Proof.
  unfold elem_inv. destruct (x.2).
  - apply loads_of_only_loads.
  - intros (pre & q & -> & Hpre). rewrite forallb_app.
    by rewrite (loads_of_only_loads P pre Hpre).
Qed.

Section FitFacts.

Variable tensor : Type.
Variable generator : model tensor (batch Q).
Variable discriminator : model tensor tensor.
Variable generator_loss : tensor -> batch Q -> batch Q -> tensor * tensor * tensor.
Variable discriminator_loss : tensor -> tensor -> tensor.
Variable partial :
  (gmap positive tensor -> tensor) -> gmap positive tensor -> positive -> tensor.
Variable adam :
  nat -> option (tensor * tensor) -> tensor -> tensor -> tensor * (tensor * tensor).
Variable train_rnd : nat -> epoch_draws.
Variable test_rnd : nat -> epoch_draws.
Variable decode_jpeg : list Byte.byte -> option (image Z).
Variable files : gmap string (list Byte.byte).
Variable train_files : list string.
Variable test_files : list string.

Local Abbreviation train_ds := (train_dataset decode_jpeg files train_files).
Local Abbreviation test_ds := (test_dataset decode_jpeg files test_files).
Local Abbreviation body :=
  (fit_body tensor generator discriminator generator_loss discriminator_loss
     partial adam).
Local Abbreviation loop :=
  (fit_loop tensor generator discriminator generator_loss discriminator_loss
     partial adam train_rnd).
Local Abbreviation run :=
  (fit tensor generator discriminator generator_loss discriminator_loss
     partial adam train_rnd test_rnd).
Local Abbreviation good := (pair_loads decode_jpeg files).
Local Abbreviation run_inv := (run_shape tensor good).

(** The events of one pass through the body of the loop. *)
Lemma fit_body_events (w : world tensor) (example_input example_target : batch Q)
    (step : Z) (input_image target : batch Q) :
  let tr := (body w example_input example_target step input_image target).2 in
  forallb (fun e => negb (is_load e)) tr = true /\
  forallb training_call tr = true /\
  count_events is_train_step tr = 1 /\
  count_events is_checkpoint tr
  = (if decide ((step + 1) mod 5000 = 0)%Z then 1 else 0).
Proof.
  unfold fit_body, train_step, generate_images.
  destruct (generator_update _ _ _ _ _ _ _ _ _ _) as [vars1 o1].
  destruct (discriminator_update _ _ _ _ _ _ _ _ _ _ _) as [vars2 o2].
  cbn [snd].
  destruct (decide (step mod 1000 = 0)%Z);
    destruct (decide (step <> 0)%Z);
    destruct (decide ((step + 1) mod 10 = 0)%Z);
    destruct (decide ((step + 1) mod 5000 = 0)%Z);
    split_and!; reflexivity.
Qed.



Lemma run_inv_prepend (tr0 tr : trace) (o : outcome tensor) :
  good_events good tr0 -> run_inv tr o -> run_inv (tr0 ++ tr) o.
Proof.
  intros H0 [H|(pre & q & e & -> & Hpre & ->)].
  - left. apply Forall_app. done.
  - right. exists (tr0 ++ pre), q, e. split_and!; [by rewrite app_assoc| |done].
    apply Forall_app. done.
Qed.

Lemma fit_loop_trace (fuel : nat) (steps step : Z) (epoch : nat)
    (cur : stream (batch Q * batch Q)) (example_input example_target : batch Q)
    (w : world tensor) :
  stream_inv good cur ->
  let r := loop fuel train_ds steps step epoch cur example_input example_target w in
  forallb training_call r.1 = true /\ run_inv r.1 r.2.
Proof.
  revert step epoch cur w.
  induction fuel as [|fuel IH]; intros step epoch cur w Hcur.
  - simpl. split; [done|]. left. constructor.
  - cbn [fit_loop].
    destruct (decide (0 <= steps /\ steps <= step)%Z).
    { simpl. split; [done|]. left. constructor. }
    set (nxt := match cur with
                | [] => (S epoch, train_ds (train_rnd epoch))
                | _ :: _ => (epoch, cur)
                end).
    assert (Hnxt : stream_inv good nxt.2).
    { subst nxt. destruct cur; [apply train_dataset_inv|exact Hcur]. }
    destruct nxt as [epoch' cur']. cbn [snd] in Hnxt.
    destruct cur' as [|[tr [[input_image target]|e]] rest].
    + simpl. split; [done|]. left. constructor.
    + apply Forall_cons in Hnxt as [Hx Hrest].
      pose proof (fit_body_events w example_input example_target step
                    input_image target) as Hb.
      destruct (body w example_input example_target step input_image target)
        as [w' trb]. cbn [snd] in Hb. cbv zeta in Hb.
      destruct Hb as (Hb1 & Hb2 & _).
      specialize (IH (step + 1)%Z epoch' rest w' Hrest).
      destruct (loop fuel train_ds steps (step + 1)%Z epoch' rest
                  example_input example_target w') as [trr o].
      cbn [fst snd] in *. destruct IH as [IH1 IH2].
      pose proof (elem_inv_only_loads good _ Hx) as Hl. cbn [fst] in Hl.
      destruct (only_loads_facts tr Hl) as (Hc & _ & _).
      split.
      * rewrite !forallb_app. by rewrite Hc, Hb2, IH1.
      * apply run_inv_prepend; [by apply loads_of_good|].
        apply run_inv_prepend; [by apply no_loads_good|]. exact IH2.
    + apply Forall_cons in Hnxt as [Hx Hrest]. cbn [fst snd].
      pose proof (elem_inv_only_loads good _ Hx) as Hl. cbn [fst] in Hl.
      destruct (only_loads_facts tr Hl) as (Hc & _ & _).
      split; [exact Hc|]. right.
      destruct Hx as (pre & q & Epre & Hpre). cbn [fst] in Epre.
      exists pre, q, e. split_and!; [done| |done]. by apply loads_of_good.
Qed.

Lemma fit_trace (fuel : nat) (w : world tensor) (steps : Z) :
  let r := run fuel w train_ds test_ds steps in
  forallb training_call r.1 = true /\ run_inv r.1 r.2.
Proof.
  unfold fit.
  pose proof (test_dataset_inv decode_jpeg files test_files (test_rnd 0)) as Ht.
  destruct (test_ds (test_rnd 0)) as [|[tr0 [[example_input example_target]|e]] rest];
    cbn [take].
  - simpl. split; [done|]. left. constructor.
  - apply Forall_cons in Ht as [Hx _].
    pose proof (fit_loop_trace fuel steps 0 0 [] example_input example_target w)
      as Hl.
    destruct (loop fuel train_ds steps 0%Z 0 [] example_input example_target w)
      as [tr o]. cbn [fst snd] in *.
    destruct Hl as [Hl1 Hl2]; [constructor|].
    pose proof (elem_inv_only_loads good _ Hx) as Hlo. cbn [fst] in Hlo.
    destruct (only_loads_facts tr0 Hlo) as (Hc & _ & _).
    split.
    + rewrite forallb_app. by rewrite Hc, Hl1.
    + apply run_inv_prepend; [by apply loads_of_good|exact Hl2].
  - apply Forall_cons in Ht as [Hx _]. cbn [fst snd].
    pose proof (elem_inv_only_loads good _ Hx) as Hlo. cbn [fst] in Hlo.
    destruct (only_loads_facts tr0 Hlo) as (Hc & _ & _).
    split; [exact Hc|]. right.
    destruct Hx as (pre & q & Epre & Hpre). cbn [fst] in Epre.
    exists pre, q, e. split_and!; [done| |done]. by apply loads_of_good.
Qed.

(** C10.  [generate_images] makes one forward pass, of the model it is
    given, on the example input, with the training flag true.  The body of
    the loop of [fit] runs it on the generator and the held-out example
    whenever the step is a multiple of 1000, and no forward pass anywhere
    in a run of [fit] has the training flag false. *)
Theorem previews_run_in_training_mode (vars : gmap positive tensor)
    (m : model tensor (batch Q)) (test_input tar : batch Q)
    (fuel : nat) (w : world tensor) (steps : Z) :
  (exists display_list,
     generate_images tensor vars m test_input tar
     = [EvCall (name m) true [test_input]; EvPlot display_list]) /\
  (forall w' example_input example_target step input_image target,
     (step mod 1000 = 0)%Z ->
     exists pre post,
       (body w' example_input example_target step input_image target).2
       = pre ++ generate_images tensor (variables w') generator
                  example_input example_target ++ post) /\
  (forall tr0 example_input example_target rest,
     test_ds (test_rnd 0) = (tr0, Ok (example_input, example_target)) :: rest ->
     run fuel w train_ds test_ds steps
     = (tr0 ++ (loop fuel train_ds steps 0%Z 0 [] example_input
                  example_target w).1,
        (loop fuel train_ds steps 0%Z 0 [] example_input example_target w).2)) /\
  forallb training_call (run fuel w train_ds test_ds steps).1 = true.
Proof.
  split_and!.
  - eexists. reflexivity.
  - intros w' example_input example_target step input_image target Hstep.
    unfold fit_body.
    destruct (train_step _ _ _ _ _ _ _ _ _ _ _) as [w'' tr3]. cbn [snd].
    rewrite decide_True by exact Hstep.
    exists ([EvPrint (MsgStep step)] ++ [EvClear]
            ++ (if decide (step <> 0)%Z then [EvPrint MsgTime] else [])),
           ([EvPrint (MsgStepK (step / 1000))] ++ tr3
            ++ (if decide ((step + 1) mod 10 = 0)%Z then [EvPrint MsgDot] else [])
            ++ (if decide ((step + 1) mod 5000 = 0)%Z then [EvCheckpoint] else [])).
    generalize (generate_images tensor (variables w') generator
                  example_input example_target).
    intros gi. by rewrite <- !app_assoc.
  - intros tr0 example_input example_target rest E. unfold fit. rewrite E.
    cbn [take]. by destruct (loop _ _ _ _ _ _ _ _ _) as [tr o].
  - apply fit_trace.
Qed.

(** C6.  A sample whose input file is there and whose derived output file
    is missing: [load] fails, and so do both mapped functions; in a run of
    [fit], the load of that sample is the last event of the trace and the
    run ends with an exception: no forward pass, and nothing else, comes
    after it. *)
Theorem missing_target_fails_before_forward (p : string) (ci : list Byte.byte)
    (fuel : nat) (w : world tensor) (steps : Z) :
  files !! p = Some ci ->
  files !! target_path p = None ->
  (exists e,
     load decode_jpeg files p = Err e /\
     (forall d, load_image_train decode_jpeg files d p = Err e) /\
     load_image_test decode_jpeg files p = Err e) /\
  (forall pre post,
     (run fuel w train_ds test_ds steps).1 = pre ++ EvLoad p :: post ->
     post = [] /\
     forallb (fun e => negb (is_call e)) post = true /\
     exists e, (run fuel w train_ds test_ds steps).2 = Raised tensor e).
Proof.
  intros Hin Hout.
  destruct (load_missing_target decode_jpeg files p ci Hin Hout) as [e He].
  split.
  { exists e. split; [exact He|]. split.
    - intros d. unfold load_image_train. by rewrite He.
    - unfold load_image_test. by rewrite He. }
  assert (Hbad : ~ good p).
  { unfold pair_loads. by rewrite He. }
  intros pre post Htr.
  destruct (fit_trace fuel w steps) as [_ Hinv]. cbv zeta in Hinv.
  rewrite Htr in Hinv.
  destruct Hinv as [Hgood|(pre' & q & e' & Epre & Hgood & Ho)].
  - exfalso. apply Hbad.
    apply Forall_app in Hgood as [_ Hgood].
    apply Forall_cons in Hgood as [Hp _]. by apply Hp.
  - destruct post as [|x post _] using rev_ind.
    + split; [done|]. split; [done|]. by exists e'.
    + exfalso. apply Hbad.
      change (pre ++ EvLoad p :: post ++ [x])
        with (pre ++ (EvLoad p :: post) ++ [x]) in Epre.
      rewrite app_assoc in Epre.
      apply app_inj_tail in Epre as [<- _].
      apply Forall_app in Hgood as [_ Hgood].
      apply Forall_cons in Hgood as [Hp _]. by apply Hp.
Qed.

Lemma checkpoint_step (step : Z) :
  (0 <= step)%Z ->
  ((step + 1) / 5000
   = step / 5000 + (if decide ((step + 1) mod 5000 = 0) then 1 else 0))%Z.
Proof.
  intros Hs. destruct (decide ((step + 1) mod 5000 = 0)%Z) as [H|H];
    Z.div_mod_to_equations; lia.
Qed.

(** A loop over loadable training pairs runs all its steps. *)
Lemma fit_loop_healthy (n : nat) :
  forall (fuel : nat) (step : Z) (epoch : nat)
         (cur : stream (batch Q * batch Q))
         (example_input example_target : batch Q) (w : world tensor),
  n < fuel -> (0 <= step)%Z ->
  all_ok cur -> stream_inv good cur ->
  train_files <> [] ->
  Forall (loadable decode_jpeg files) train_files ->
  exists w' tr,
    loop fuel train_ds (step + Z.of_nat n)%Z step epoch cur
      example_input example_target w = (tr, Finished tensor w') /\
    count_events is_train_step tr = n /\
    Z.of_nat (count_events is_checkpoint tr)
    = ((step + Z.of_nat n) / 5000 - step / 5000)%Z.
Proof.
  induction n as [|n IH];
    intros fuel step epoch cur example_input example_target w
           Hfuel Hstep Hok Hinv Hne Hall.
  - destruct fuel as [|fuel]; [lia|]. cbn [fit_loop].
    rewrite decide_True by lia. exists w, []. split_and!; [done..|].
    simpl. rewrite Z.add_0_r. lia.
  - destruct fuel as [|fuel]; [lia|]. cbn [fit_loop].
    rewrite decide_False by lia.
    set (nxt := match cur with
                | [] => (S epoch, train_ds (train_rnd epoch))
                | _ :: _ => (epoch, cur)
                end).
    assert (Hnxt : all_ok nxt.2 /\ stream_inv good nxt.2 /\ nxt.2 <> []).
    { subst nxt. destruct cur as [|x cur].
      - destruct (train_dataset_ok decode_jpeg files train_files
                    (train_rnd epoch) Hne Hall) as [H1 H2].
        split_and!; [exact H1|apply train_dataset_inv|exact H2].
      - split_and!; [exact Hok|exact Hinv|done]. }
    destruct nxt as [epoch' cur']. cbn [snd] in Hnxt.
    destruct Hnxt as (Hok' & Hinv' & Hne').
    destruct cur' as [|[tr r] rest]; [done|].
    apply Forall_cons in Hok' as [Hr Hok']. simpl in Hr.
    apply Forall_cons in Hinv' as [Hx Hinv'].
    destruct r as [[input_image target]|e]; [|discriminate].
    pose proof (fit_body_events w example_input example_target step
                  input_image target) as Hb.
    destruct (body w example_input example_target step input_image target)
      as [w1 trb]. cbn [snd] in Hb. cbv zeta in Hb.
    destruct Hb as (_ & _ & Hb3 & Hb4).
    destruct (IH fuel (step + 1)%Z epoch' rest example_input example_target w1)
      as (w' & trr & El & Hc1 & Hc2); [lia|lia|done..|].
    replace (step + Z.of_nat (S n))%Z with (step + 1 + Z.of_nat n)%Z by lia.
    rewrite El. exists w', (tr ++ trb ++ trr). split; [done|].
    pose proof (elem_inv_only_loads good _ Hx) as Hl. cbn [fst] in Hl.
    destruct (only_loads_facts tr Hl) as (_ & Ht1 & Ht2).
    rewrite !count_events_app, Ht1, Ht2, Hb3, Hb4, Hc1.
    split; [lia|].
    rewrite Nat.add_0_l, Nat2Z.inj_add, Hc2.
    rewrite (checkpoint_step step Hstep).
    destruct (decide ((step + 1) mod 5000 = 0)%Z); simpl; lia.
Qed.

(** C8.  With a number of steps that is not negative, a training set that
    is not empty and whose pairs load, and a test set whose pairs load,
    [fit] returns (with fuel for more than [steps] iterations), after
    exactly [steps] training steps; it has then saved steps // 5000
    checkpoints, hence none when [steps] is below 5000. *)
Theorem fit_runs_exactly_steps (steps : Z) (fuel : nat) (w : world tensor) :
  (0 <= steps)%Z ->
  Z.to_nat steps < fuel ->
  train_files <> [] ->
  Forall (loadable decode_jpeg files) train_files ->
  test_files <> [] ->
  Forall (loadable decode_jpeg files) test_files ->
  exists w' tr,
    run fuel w train_ds test_ds steps = (tr, Finished tensor w') /\
    count_events is_train_step tr = Z.to_nat steps /\
    Z.of_nat (count_events is_checkpoint tr) = (steps / 5000)%Z /\
    ((steps < 5000)%Z -> count_events is_checkpoint tr = 0).
Proof.
  intros Hsteps Hfuel Hne Hall Hne' Hall'. unfold fit.
  destruct (test_dataset_ok decode_jpeg files test_files (test_rnd 0) Hne' Hall')
    as [Hok Hnn].
  pose proof (test_dataset_inv decode_jpeg files test_files (test_rnd 0)) as Hinv.
  destruct (test_ds (test_rnd 0)) as [|[tr0 r] rest]; [done|].
  apply Forall_cons in Hok as [Hr _]. simpl in Hr.
  apply Forall_cons in Hinv as [Hx _].
  destruct r as [[example_input example_target]|e]; [|discriminate].
  cbn [take].
  destruct (fit_loop_healthy (Z.to_nat steps) fuel 0%Z 0 []
              example_input example_target w)
    as (w' & tr & El & Hc1 & Hc2); [lia|lia|constructor|constructor|done..|].
  rewrite Z.add_0_l, Z2Nat.id in El by lia. rewrite El.
  exists w', (tr0 ++ tr). split; [done|].
  pose proof (elem_inv_only_loads good _ Hx) as Hl. cbn [fst] in Hl.
  destruct (only_loads_facts tr0 Hl) as (_ & Ht1 & Ht2).
  rewrite !count_events_app, Ht1, Ht2, Hc1.
  rewrite Z.add_0_l, Z2Nat.id in Hc2 by lia.
  assert (Hcp : Z.of_nat (count_events is_checkpoint tr) = (steps / 5000)%Z).
  { rewrite Hc2. change (0 / 5000)%Z with 0%Z. lia. }
  split_and!; [done|exact Hcp|].
  intros Hlt. rewrite Z.div_small in Hcp by lia. simpl. lia.
Qed.

(** With a negative number of steps [take] never ends the loop: over
    loadable training pairs the run uses up any fuel. *)
Lemma fit_loop_negative (fuel : nat) :
  forall (steps step : Z) (epoch : nat) (cur : stream (batch Q * batch Q))
         (example_input example_target : batch Q) (w : world tensor),
  (steps < 0)%Z ->
  all_ok cur ->
  train_files <> [] ->
  Forall (loadable decode_jpeg files) train_files ->
  (loop fuel train_ds steps step epoch cur example_input example_target w).2
  = OutOfFuel tensor.
Proof.
  induction fuel as [|fuel IH];
    intros steps step epoch cur example_input example_target w
           Hneg Hok Hne Hall; [done|].
  cbn [fit_loop]. rewrite decide_False by lia.
  set (nxt := match cur with
              | [] => (S epoch, train_ds (train_rnd epoch))
              | _ :: _ => (epoch, cur)
              end).
  assert (Hnxt : all_ok nxt.2 /\ nxt.2 <> []).
  { subst nxt. destruct cur as [|x cur]; [|done].
    apply (train_dataset_ok decode_jpeg files train_files
             (train_rnd epoch) Hne Hall). }
  destruct nxt as [epoch' cur']. cbn [snd] in Hnxt.
  destruct Hnxt as (Hok' & Hne').
  destruct cur' as [|[tr r] rest]; [done|].
  apply Forall_cons in Hok' as [Hr Hok']. simpl in Hr.
  destruct r as [[input_image target]|e]; [|discriminate].
  destruct (body w example_input example_target step input_image target)
    as [w1 trb].
  specialize (IH steps (step + 1)%Z epoch' rest example_input example_target
                w1 Hneg Hok' Hne Hall).
  destruct (loop fuel train_ds steps (step + 1)%Z epoch' rest
              example_input example_target w1) as [trr o].
  exact IH.
Qed.

End FitFacts.

(* ===================================================================== *)
(** * 19. The order of the test stream                                    *)
(* ===================================================================== *)



Lemma ds_batch_one {A} (s : stream (A * A)) :
  ds_batch 1 s = until_err (map batch1 s).
Proof.
  unfold ds_batch. induction s as [|[tr [[a b]|e]] s IH]; [done| |done].
  cbn [batch_go map until_err batch1]. rewrite IH. reflexivity.
Qed.

Lemma ds_map_list_files {B} (f : string -> trace * result B)
    (matched : list string) (tape : nat -> nat) :
  ds_map (fun _ => f) (list_files matched tape)
  = map f (shuffle_all tape 0 (length matched) matched).
Proof.
  unfold ds_map, list_files.
  generalize (shuffle_all tape 0 (length matched) matched). intros l.
  induction l as [|p l IH]; [done|].
  cbn [map]. rewrite imap_cons. f_equal; [by destruct (f p)|exact IH].
Qed.

Section TestOrder.

Variable decode_jpeg : list Byte.byte -> option (image Z).
Variable files : gmap string (list Byte.byte).
Variable test_files : list string.

(** The test stream is the listing of the test files, in the order the
    listing delivers them, loaded and batched one by one. *)
Lemma test_dataset_unfold (ed : epoch_draws) :
  test_dataset decode_jpeg files test_files ed
  = until_err
      (map (fun p => batch1 ([EvLoad p], load_image_test decode_jpeg files p))
           (shuffle_all (files_draw ed) 0 (length test_files) test_files)).
Proof.
  unfold test_dataset.
  rewrite (ds_map_list_files
             (fun x => ([EvLoad x], load_image_test decode_jpeg files x))).
  change BATCH_SIZE with 1. rewrite ds_batch_one. by rewrite map_map.
Qed.

(** C7, as the code has it.  The test stream maps the loader and the
    evaluation augmentation over the listing of the matched test paths and
    batches the results one by one, in the order of the listing and with
    no shuffle stage of its own; the listing itself is a permutation of the
    matched paths chosen by the draws of the iteration. *)
Theorem test_dataset_order (ed : epoch_draws) :
  test_dataset decode_jpeg files test_files ed
  = until_err
      (map (fun p => batch1 ([EvLoad p], load_image_test decode_jpeg files p))
           (shuffle_all (files_draw ed) 0 (length test_files) test_files)) /\
  shuffle_all (files_draw ed) 0 (length test_files) test_files ≡ₚ test_files.
Proof.
  split; [apply test_dataset_unfold|].
  by apply shuffle_all_Permutation.
Qed.

End TestOrder.

(* ===================================================================== *)
(** * 20. The theorems at the small instance                              *)
(* ===================================================================== *)

Lemma demo_input_shape : has_shape 1 1 3 demo_input.
Proof. apply (bool_decide_unpack _). vm_compute. exact I. Defined.

Lemma demo_target_shape : has_shape 1 2 3 demo_target.
Proof. apply (bool_decide_unpack _). vm_compute. exact I. Defined.

Lemma demo_input_range : in_range 0 255 demo_input.
Proof.
  repeat constructor; unfold Qle; simpl; lia.
Defined.

Lemma demo_target_range : in_range 0 255 demo_target.
Proof.
  repeat constructor; unfold Qle; simpl; lia.
Defined.

Lemma normalize_range_roundtrip_witness :
  in_range 0 255 demo_input /\ in_range 0 255 demo_target /\
  in_range (-1) 1 (normalize demo_input demo_target).1 /\
  image_eq (denormalize (normalize demo_input demo_target).2) demo_target.
Proof.
  split; [exact demo_input_range|]. split; [exact demo_target_range|].
  destruct (normalize_range_roundtrip demo_input demo_target
              demo_input_range demo_target_range) as (H1 & _ & _ & H4).
  split; [exact H1|exact H4].
Defined.

Lemma training_augmentation_shape_witness :
  has_shape 1 1 3 demo_input /\ has_shape 1 2 3 demo_target /\
  exists ja jb,
    random_jitter demo_draws demo_input demo_target = Ok (ja, jb) /\
    has_shape 512 512 3 ja /\ has_shape 512 512 3 jb.
Proof.
  split; [exact demo_input_shape|]. split; [exact demo_target_shape|].
  destruct (training_augmentation_shape demo_draws demo_input demo_target
              1 1 1 2 ltac:(lia) ltac:(lia) ltac:(lia) ltac:(lia)
              demo_input_shape demo_target_shape)
    as (ra & rb & ca & cb & ja & jb & _ & _ & _ & _ & _ & _ & _ & _
        & Ej & Hja & Hjb & _).
  exists ja, jb. split; [exact Ej|]. split; [exact Hja|exact Hjb].
Defined.

Lemma random_jitter_joint_transform_witness :
  has_shape 1 1 3 demo_input /\ has_shape 1 2 3 demo_target /\
  exists ra rb,
    resize_nearest 542 542 demo_input = Ok ra /\
    resize_nearest 542 542 demo_target = Ok rb /\
    random_jitter demo_draws demo_input demo_target
    = Ok (jitter_geometry demo_draws ra, jitter_geometry demo_draws rb).
Proof.
  split; [exact demo_input_shape|]. split; [exact demo_target_shape|].
  exact (proj1 (random_jitter_joint_transform demo_draws demo_input demo_target
                  1 1 1 2 ltac:(lia) ltac:(lia) ltac:(lia) ltac:(lia)
                  demo_input_shape demo_target_shape)).
Defined.

Lemma train_step_gradient_isolation_witness :
  NoDup (trainable_variables demo_generator) /\
  NoDup (trainable_variables demo_discriminator) /\
  Forall (fun v => v ∉ trainable_variables demo_discriminator)
         (trainable_variables demo_generator) /\
  (forall v, v ∈ trainable_variables demo_generator ->
     (discriminator_update Z demo_generator demo_discriminator
        demo_generator_loss demo_discriminator_loss demo_partial demo_adam
        demo_world [demo_input] [demo_target]
        (generator_update Z demo_generator demo_discriminator
           demo_generator_loss demo_discriminator_loss demo_partial demo_adam
           demo_world [demo_input] [demo_target]).1).1 !! v
     = (generator_update Z demo_generator demo_discriminator
          demo_generator_loss demo_discriminator_loss demo_partial demo_adam
          demo_world [demo_input] [demo_target]).1 !! v) /\
  (forall v, v ∈ trainable_variables demo_discriminator ->
     (generator_update Z demo_generator demo_discriminator
        demo_generator_loss demo_discriminator_loss demo_partial demo_adam
        demo_world [demo_input] [demo_target]).1 !! v
     = variables demo_world !! v).
Proof.
  assert (H1 : NoDup (trainable_variables demo_generator)).
  { apply (bool_decide_unpack _). vm_compute. exact I. }
  assert (H2 : NoDup (trainable_variables demo_discriminator)).
  { apply (bool_decide_unpack _). vm_compute. exact I. }
  assert (H3 : Forall (fun v => v ∉ trainable_variables demo_discriminator)
                      (trainable_variables demo_generator)).
  { apply (bool_decide_unpack _). vm_compute. exact I. }
  split; [exact H1|]. split; [exact H2|]. split; [exact H3|].
  destruct (train_step_gradient_isolation Z demo_generator demo_discriminator
              demo_generator_loss demo_discriminator_loss demo_partial
              demo_adam demo_world [demo_input] [demo_target] 0%Z H1 H2 H3)
    as (_ & _ & _ & _ & _ & Hd & Hg & _).
  split; [exact Hg|exact Hd].
Defined.

(** The values of the two variables after one step at the instance: the
    generator's moved by the derivative of the generator's loss, the
    discriminator's by that of the discriminator's loss. *)
Example demo_train_step_values :
  let w' := (train_step Z demo_generator demo_discriminator
               demo_generator_loss demo_discriminator_loss demo_partial
               demo_adam demo_world [demo_input] [demo_target] 0%Z).1 in
  variables w' !! 1%positive = Some 10%Z /\
  variables w' !! 2%positive = Some 18%Z.
Proof. vm_compute. split; reflexivity. Qed.

Lemma demo_train_loadable :
  Forall (loadable raw_decode demo_files) demo_train_files.
Proof. apply (bool_decide_unpack _). vm_compute. exact I. Defined.

Lemma demo_test_loadable :
  Forall (loadable raw_decode demo_files) demo_test_files.
Proof. apply (bool_decide_unpack _). vm_compute. exact I. Defined.

Lemma demo_test_loadable_missing :
  Forall (loadable raw_decode demo_files_missing) demo_test_files.
Proof. apply (bool_decide_unpack _). vm_compute. exact I. Defined.

(** The first element of the test stream is the load of the path that the
    listing delivers first. *)
Lemma test_dataset_first (decode_jpeg : list Byte.byte -> option (image Z))
    (files : gmap string (list Byte.byte)) (test_files : list string)
    (ed : epoch_draws) (p : string) (rest : list string) :
  shuffle_all (files_draw ed) 0 (length test_files) test_files = p :: rest ->
  hd_error (map fst (test_dataset decode_jpeg files test_files ed))
  = Some [EvLoad p].
Proof.
  intros E. rewrite test_dataset_unfold, E. cbn [map until_err batch1].
  destruct (load_image_test decode_jpeg files p) as [[a b]|e]; reflexivity.
Qed.

(** C7, counterexample.  Two iterations over the same two test
    pairs, both of which load: with one draw of [list_files] the first
    sample delivered is the pair of t.jpg, with another it is the pair of
    u.jpg. *)
Lemma test_order_depends_on_draws :
  Forall (loadable raw_decode demo_files) demo_test_files /\
  hd_error (map fst (test_dataset raw_decode demo_files demo_test_files
                       (demo_epoch 0)))
  = Some [EvLoad "/d/dataset/test/input/t.jpg"] /\
  hd_error (map fst (test_dataset raw_decode demo_files demo_test_files
                       (demo_epoch 1)))
  = Some [EvLoad "/d/dataset/test/input/u.jpg"] /\
  test_dataset raw_decode demo_files demo_test_files (demo_epoch 0)
  <> test_dataset raw_decode demo_files demo_test_files (demo_epoch 1).
Proof.
  assert (H0 : hd_error (map fst (test_dataset raw_decode demo_files
                                    demo_test_files (demo_epoch 0)))
               = Some [EvLoad "/d/dataset/test/input/t.jpg"]).
  { apply (test_dataset_first _ _ _ _ _ ["/d/dataset/test/input/u.jpg"]).
    vm_compute. reflexivity. }
  assert (H1 : hd_error (map fst (test_dataset raw_decode demo_files
                                    demo_test_files (demo_epoch 1)))
               = Some [EvLoad "/d/dataset/test/input/u.jpg"]).
  { apply (test_dataset_first _ _ _ _ _ ["/d/dataset/test/input/t.jpg"]).
    vm_compute. reflexivity. }
  split; [exact demo_test_loadable|]. split; [exact H0|]. split; [exact H1|].
  intros E. rewrite E, H1 in H0. inversion H0.
Qed.

Example demo_load_missing :
  load raw_decode demo_files_missing "/d/dataset/training/input/c.jpg"
  = Err (NotFoundError "/d/dataset/training/output/c.png").
Proof. vm_compute. reflexivity. Qed.

Lemma missing_target_fails_before_forward_witness :
  demo_files_missing !! "/d/dataset/training/input/c.jpg"
  = Some [Byte.x01; Byte.x01; Byte.x01] /\
  demo_files_missing !! target_path "/d/dataset/training/input/c.jpg" = None /\
  (exists e,
     load raw_decode demo_files_missing "/d/dataset/training/input/c.jpg"
     = Err e /\
     (forall d,
        load_image_train raw_decode demo_files_missing d
          "/d/dataset/training/input/c.jpg" = Err e) /\
     load_image_test raw_decode demo_files_missing
       "/d/dataset/training/input/c.jpg" = Err e).
Proof.
  assert (H1 : demo_files_missing !! "/d/dataset/training/input/c.jpg"
               = Some [Byte.x01; Byte.x01; Byte.x01])
    by (vm_compute; reflexivity).
  assert (H2 : demo_files_missing
               !! target_path "/d/dataset/training/input/c.jpg" = None)
    by (vm_compute; reflexivity).
  split; [exact H1|]. split; [exact H2|].
  exact (proj1 (missing_target_fails_before_forward Z demo_generator
                  demo_discriminator demo_generator_loss
                  demo_discriminator_loss demo_partial demo_adam
                  (fun _ => demo_epoch 0) (fun _ => demo_epoch 0)
                  raw_decode demo_files_missing
                  ("/d/dataset/training/input/c.jpg" :: demo_train_files)
                  demo_test_files
                  "/d/dataset/training/input/c.jpg"
                  [Byte.x01; Byte.x01; Byte.x01] 4 demo_world 3%Z H1 H2)).
Defined.

Lemma fit_runs_exactly_steps_witness :
  (0 <= 3)%Z /\ Z.to_nat 3 < 4 /\
  length demo_train_files = 2 /\
  Forall (loadable raw_decode demo_files) demo_train_files /\
  Forall (loadable raw_decode demo_files) demo_test_files /\
  exists w' tr,
    fit Z demo_generator demo_discriminator demo_generator_loss
      demo_discriminator_loss demo_partial demo_adam
      (fun _ => demo_epoch 0) (fun _ => demo_epoch 0) 4 demo_world
      (train_dataset raw_decode demo_files demo_train_files)
      (test_dataset raw_decode demo_files demo_test_files) 3%Z
    = (tr, Finished Z w') /\
    count_events is_train_step tr = 3 /\
    count_events is_checkpoint tr = 0.
Proof.
  assert (H1 : (0 <= 3)%Z) by lia.
  assert (H2 : Z.to_nat 3 < 4) by (vm_compute; lia).
  split; [exact H1|]. split; [exact H2|]. split; [reflexivity|].
  split; [exact demo_train_loadable|]. split; [exact demo_test_loadable|].
  destruct (fit_runs_exactly_steps Z demo_generator demo_discriminator
              demo_generator_loss demo_discriminator_loss demo_partial
              demo_adam (fun _ => demo_epoch 0) (fun _ => demo_epoch 0)
              raw_decode demo_files demo_train_files demo_test_files
              3%Z 4 demo_world H1 H2 ltac:(discriminate) demo_train_loadable
              ltac:(discriminate) demo_test_loadable)
    as (w' & tr & E & Hc & _ & Hk).
  exists w', tr. split; [exact E|]. split; [exact Hc|].
  apply Hk. lia.
Defined.

(* ===================================================================== *)
(** * 21. Further properties of the code                                  *)
(* ===================================================================== *)

(** ** Images that already have the requested size *)

(** At the two sizes that the script resizes to, the binary32 index of
    output sample [i] from as many input samples is [i] itself. *)
Lemma nn_index_same (n i : nat) :
  n = 512 \/ n = 542 -> i < n -> nn_index n n i = i.
Proof.
  intros Hn Hi.
  assert (H : forallb (fun n => forallb (fun i => nn_index n n i =? i) (seq 0 n))
                [512; 542] = true) by (vm_compute; reflexivity).
  rewrite forallb_forall in H.
  assert (Hin : In n [512; 512 + 30]) by (simpl; lia).
  specialize (H n Hin). rewrite forallb_forall in H.
  apply Nat.eqb_eq, H, in_seq. lia.
Qed.

Lemma map_nth_seq_id {B} (d : B) (l : list B) :
  map (fun i => nth i l d) (seq 0 (length l)) = l.
Proof.
  apply (nth_ext _ _ d d).
  - by rewrite length_map, length_seq.
  - intros i Hi. rewrite length_map, length_seq in Hi.
    by rewrite nth_map_seq.
Qed.

Lemma resize_nearest_same {T} (n c : nat) (img : image T) :
  n = 512 \/ n = 542 -> has_shape n n c img ->
  resize_nearest n n img = Ok img.
Proof.
  intros Hn Himg. unfold resize_nearest.
  rewrite (has_shape_dims n n c) by (first [lia|assumption]).
  assert (E : (n =? 0) = false) by (apply Nat.eqb_neq; lia).
  rewrite E. cbn [orb]. f_equal.
  destruct Himg as [Hlen Hrows].
  etransitivity; [|apply (map_nth_seq_id [] img)]. rewrite Hlen.
  apply map_ext_in. intros y Hy%in_seq. cbv zeta.
  rewrite (nn_index_same n y Hn) by lia.
  assert (Hrow : length (nth y img []) = n).
  { rewrite Forall_nth in Hrows. apply Hrows. lia. }
  etransitivity; [|apply (map_nth_seq_id [] (nth y img []))].
  rewrite Hrow at 1.
  apply map_ext_in. intros x Hx%in_seq.
  by rewrite (nn_index_same n x Hn) by lia.
Qed.

(** The two resizings of the script leave images that already have the
    requested size as they are: at 512 x 512, the size of the evaluation
    path (line 41), and at 542 x 542, the size of the training augmentation
    (line 72), [resize] returns both images unchanged, whatever their
    channel counts.  In binary32 the scale n / n is 1 and i + 0.5 is exact
    at these sizes, so that output sample i reads input sample i. *)
Theorem resize_to_own_size {T} (n ca cb : nat)
    (input_image real_image : image T) :
  n = 512 \/ n = 542 ->
  has_shape n n ca input_image -> has_shape n n cb real_image ->
  resize input_image real_image n n = Ok (input_image, real_image).
Proof.
  intros Hn Ha Hb. unfold resize.
  rewrite (resize_nearest_same n ca input_image Hn Ha).
  unfold mbind, result_bind.
  by rewrite (resize_nearest_same n cb real_image Hn Hb).
Qed.

Lemma resize_to_own_size_witness :
  (512 = 512 \/ 512 = 542) /\
  has_shape 512 512 3 demo_square /\
  resize demo_square demo_square IMG_HEIGHT IMG_WIDTH
  = Ok (demo_square, demo_square).
Proof.
  assert (Hs : has_shape 512 512 3 demo_square).
  { apply (bool_decide_unpack _). vm_compute. exact I. }
  split; [left; reflexivity|]. split; [exact Hs|].
  exact (resize_to_own_size 512 3 3 demo_square demo_square
           (or_introl eq_refl) Hs Hs).
Defined.

(** The evaluation path has no crop and no stack: it accepts two decoded
    images with pixels whatever their sizes and channel counts, and returns
    them at 512 x 512 with their own channel counts. *)
Theorem load_image_test_any_channels
    (decode_jpeg : list Byte.byte -> option (image Z))
    (files : gmap string (list Byte.byte)) (p : string)
    (ia ib : image Z) (ha wa ca hb wb cb : nat) :
  load decode_jpeg files p = Ok (cast_float32 ia, cast_float32 ib) ->
  0 < ha -> 0 < wa -> 0 < hb -> 0 < wb ->
  has_shape ha wa ca ia -> has_shape hb wb cb ib ->
  exists x y,
    load_image_test decode_jpeg files p = Ok (x, y) /\
    has_shape 512 512 ca x /\ has_shape 512 512 cb y.
Proof.
  intros E Hha Hwa Hhb Hwb Ha Hb.
  destruct (resize_nearest_ok IMG_HEIGHT IMG_WIDTH ha wa ca (cast_float32 ia)
              Hha Hwa) as (ra & Era & Hra & _); [by apply tmap_shape|].
  destruct (resize_nearest_ok IMG_HEIGHT IMG_WIDTH hb wb cb (cast_float32 ib)
              Hhb Hwb) as (rb & Erb & Hrb & _); [by apply tmap_shape|].
  unfold load_image_test. rewrite E. unfold mbind, result_bind, resize.
  rewrite Era. unfold mbind, result_bind. rewrite Erb.
  eexists _, _. split; [reflexivity|]. unfold normalize.
  split; by apply tmap_shape.
Qed.

Lemma load_image_test_any_channels_witness :
  load raw_decode demo_files "/d/dataset/test/input/t.jpg"
  = Ok (cast_float32 [[[7; 8; 9]]]%Z, cast_float32 [[[0; 0; 255]]]%Z) /\
  exists x y,
    load_image_test raw_decode demo_files "/d/dataset/test/input/t.jpg"
    = Ok (x, y) /\
    has_shape 512 512 3 x /\ has_shape 512 512 3 y.
Proof.
  assert (E : load raw_decode demo_files "/d/dataset/test/input/t.jpg"
              = Ok (cast_float32 [[[7; 8; 9]]]%Z,
                    cast_float32 [[[0; 0; 255]]]%Z))
    by (vm_compute; reflexivity).
  split; [exact E|].
  apply (load_image_test_any_channels raw_decode demo_files _ _ _
           1 1 3 1 1 3 E); try lia.
  - apply (bool_decide_unpack _). vm_compute. exact I.
  - apply (bool_decide_unpack _). vm_compute. exact I.
Defined.

(** ** Value ranges *)

Lemma nth_Forall_default {B} (P : B -> Prop) (l : list B) (d : B) (i : nat) :
  Forall P l -> P d -> P (nth i l d).
Proof.
  intros Hl Hd. revert i. induction Hl as [|x l Hx _ IH]; intros [|i]; simpl; auto.
Qed.

Lemma resize_nearest_in_range (lo hi : Q) (height width : nat)
    (img img' : image Q) :
  resize_nearest height width img = Ok img' ->
  in_range lo hi img -> in_range lo hi img'.
Proof.
  unfold resize_nearest. destruct (dims img) as [[in_h in_w] c].
  destruct ((in_h =? 0) || (in_w =? 0)); [discriminate|].
  intros [= <-] Himg. unfold in_range in *.
  apply Forall_map, Forall_forall. intros y _. cbv zeta.
  apply Forall_map, Forall_forall. intros x _.
  apply nth_Forall_default; [|constructor].
  apply nth_Forall_default; [exact Himg|constructor].
Qed.

Lemma window_in_range (lo hi : Q) (oy ox oc h w c : nat) (img : image Q) :
  in_range lo hi img -> in_range lo hi (window oy ox oc h w c img).
Proof.
  intros Himg. unfold in_range, window in *.
  apply slice1_Forall, Forall_map. eapply Forall_impl; [exact Himg|].
  intros row Hrow. cbv beta. apply slice1_Forall, Forall_map.
  eapply Forall_impl; [exact Hrow|]. intros px Hpx. cbv beta.
  by apply slice1_Forall.
Qed.

Lemma flip_left_right_in_range (lo hi : Q) (img : image Q) :
  in_range lo hi img -> in_range lo hi (flip_left_right img).
Proof.
  intros Himg. unfold in_range, flip_left_right in *.
  apply Forall_map. eapply Forall_impl; [exact Himg|].
  intros row Hrow. cbv beta. by apply Forall_rev.
Qed.

Lemma random_crop_in_range (lo hi : Q) (d : draws) (a b ca cb : image Q) :
  random_crop d a b = Ok (ca, cb) ->
  in_range lo hi a -> in_range lo hi b ->
  in_range lo hi ca /\ in_range lo hi cb.
Proof.
  unfold random_crop, stack. destruct (decide (dims a = dims b)); [|discriminate].
  unfold mbind, result_bind, tf_random_crop. cbn [length hd].
  destruct (dims a) as [[h w] c].
  destruct ((2 <=? 2) && (IMG_HEIGHT <=? h) && (IMG_WIDTH <=? w) && (3 <=? c));
    [|discriminate].
  replace (2 - 2 + 1) with 1 by lia. rewrite Nat.mod_1_r.
  intros [= <- <-] Ha Hb. cbn [map slice1 drop take nth].
  split; by apply window_in_range.
Qed.

Lemma random_jitter_in_range (lo hi : Q) (d : draws) (a b ja jb : image Q) :
  random_jitter d a b = Ok (ja, jb) ->
  in_range lo hi a -> in_range lo hi b ->
  in_range lo hi ja /\ in_range lo hi jb.
Proof.
  unfold random_jitter, resize. unfold mbind, result_bind.
  destruct (resize_nearest 542 542 a) as [ra|] eqn:Era; [|discriminate].
  destruct (resize_nearest 542 542 b) as [rb|] eqn:Erb; [|discriminate].
  destruct (random_crop d ra rb) as [[ca cb]|] eqn:Ec; [|discriminate].
  intros Hj Ha Hb.
  pose proof (resize_nearest_in_range lo hi _ _ _ _ Era Ha) as Hra.
  pose proof (resize_nearest_in_range lo hi _ _ _ _ Erb Hb) as Hrb.
  destruct (random_crop_in_range lo hi d ra rb ca cb Ec Hra Hrb) as [Hca Hcb].
  destruct (flip_decision d); inversion Hj; subst.
  - split; by apply flip_left_right_in_range.
  - done.
Qed.

Lemma cast_float32_in_range (img : image Z) :
  byte_valued img -> in_range 0 255 (cast_float32 img).
Proof.
  intros H. unfold in_range, cast_float32, tmap, byte_valued in *.
  apply Forall_map. eapply Forall_impl; [exact H|]. intros row Hrow. cbv beta.
  apply Forall_map. eapply Forall_impl; [exact Hrow|]. intros px Hpx. cbv beta.
  apply Forall_map. eapply Forall_impl; [exact Hpx|]. intros v Hv. cbv beta in *.
  unfold Qle, inject_Z. simpl. lia.
Qed.

Lemma normalize_in_range (a b : image Q) :
  in_range 0 255 a -> in_range 0 255 b ->
  in_range (-1) 1 (normalize a b).1 /\ in_range (-1) 1 (normalize a b).2.
Proof.
  intros Ha Hb. unfold normalize. cbn [fst snd]. split.
  - eapply tmap_in_range; [|exact Ha]. intros x. apply normalize_value_range.
  - eapply tmap_in_range; [|exact Hb]. intros x. apply normalize_value_range.
Qed.

(** Whatever the draws, the sizes and the channels: when the decoder
    yields 8-bit values, every pair that either mapped function returns has
    all its values in [-1, 1]. *)
Theorem loaded_values_in_unit_range
    (decode_jpeg : list Byte.byte -> option (image Z))
    (files : gmap string (list Byte.byte)) (p : string) :
  (forall contents img, decode_jpeg contents = Some img -> byte_valued img) ->
  (forall d x y,
     load_image_train decode_jpeg files d p = Ok (x, y) ->
     in_range (-1) 1 x /\ in_range (-1) 1 y) /\
  (forall x y,
     load_image_test decode_jpeg files p = Ok (x, y) ->
     in_range (-1) 1 x /\ in_range (-1) 1 y).
Proof.
  intros Hdec.
  assert (Hload : forall a b, load decode_jpeg files p = Ok (a, b) ->
                              in_range 0 255 a /\ in_range 0 255 b).
  { intros a b (ci & co & ia & ib & _ & Hia & _ & Hib & -> & ->)%load_ok_iff.
    split; apply cast_float32_in_range; eauto. }
  split.
  - intros d x y. unfold load_image_train, mbind, result_bind.
    destruct (load decode_jpeg files p) as [[a b]|] eqn:El; [|discriminate].
    destruct (Hload a b eq_refl) as [Ha Hb].
    destruct (random_jitter d a b) as [[ja jb]|] eqn:Ej; [|discriminate].
    intros [= <- <-].
    destruct (random_jitter_in_range 0 255 d a b ja jb Ej Ha Hb) as [Hja Hjb].
    by apply normalize_in_range.
  - intros x y. unfold load_image_test, resize, mbind, result_bind.
    destruct (load decode_jpeg files p) as [[a b]|] eqn:El; [|discriminate].
    destruct (Hload a b eq_refl) as [Ha Hb].
    destruct (resize_nearest IMG_HEIGHT IMG_WIDTH a) as [ra|] eqn:Era;
      [|discriminate].
    destruct (resize_nearest IMG_HEIGHT IMG_WIDTH b) as [rb|] eqn:Erb;
      [|discriminate].
    intros [= <- <-].
    apply normalize_in_range; eapply resize_nearest_in_range; eauto.
Qed.

Lemma raw_pixels_byte_valued (n : nat) :
  forall contents row,
    length contents <= n ->
    raw_pixels contents = Some row ->
    Forall (Forall (fun v => (0 <= v <= 255)%Z)) row /\
    Forall (fun px => length px = 3) row.
Proof.
  induction n as [|n IH]; intros contents row Hn E.
  - destruct contents; [|simpl in Hn; lia]. inversion E. split; constructor.
  - destruct contents as [|r [|g [|b rest]]]; try discriminate.
    + inversion E. split; constructor.
    + cbn [raw_pixels] in E.
      destruct (raw_pixels rest) as [row'|] eqn:E'; [|discriminate].
      inversion E; subst. simpl in Hn.
      destruct (IH rest row' ltac:(lia) E') as [H1 H2].
      split; constructor; try done.
      repeat constructor;
        match goal with
        | |- context [Byte.to_N ?x] =>
            pose proof (Byte.to_N_bounded x); lia
        end.
Qed.

Lemma raw_decode_byte_valued (contents : list Byte.byte) (img : image Z) :
  raw_decode contents = Some img -> byte_valued img.
Proof.
  unfold raw_decode. destruct (raw_pixels contents) as [[|px row]|] eqn:E;
    try discriminate.
  intros [= <-].
  destruct (raw_pixels_byte_valued (length contents) contents (px :: row)
              (le_n _) E) as [H _].
  constructor; [exact H|constructor].
Qed.

Lemma loaded_values_in_unit_range_witness :
  (forall contents img, raw_decode contents = Some img -> byte_valued img) /\
  (forall x y,
     load_image_test raw_decode demo_files "/d/dataset/test/input/t.jpg"
     = Ok (x, y) ->
     in_range (-1) 1 x /\ in_range (-1) 1 y).
Proof.
  split; [exact raw_decode_byte_valued|].
  exact (proj2 (loaded_values_in_unit_range raw_decode demo_files
                  "/d/dataset/test/input/t.jpg" raw_decode_byte_valued)).
Defined.

(** ** Channel counts on the training path *)

(** The training path needs three channels in both images: two images
    with the same number of channels below three (a grey pair) are
    rejected by the crop, two images with different numbers of channels by
    the stack, whatever the draws. *)
Theorem random_jitter_channel_errors {T} (d : draws)
    (input_image real_image : image T) (ha wa ca hb wb cb : nat) :
  0 < ha -> 0 < wa -> 0 < hb -> 0 < wb ->
  has_shape ha wa ca input_image ->
  has_shape hb wb cb real_image ->
  (ca <> cb ->
   random_jitter d input_image real_image
   = Err (InvalidArgumentError "stack")) /\
  (ca = cb -> ca < 3 ->
   random_jitter d input_image real_image
   = Err (InvalidArgumentError "random_crop")).
Proof.
  intros Hha Hwa Hhb Hwb Ha Hb.
  destruct (resize_nearest_ok 542 542 ha wa ca input_image Hha Hwa Ha)
    as (ra & Era & Hra & _).
  destruct (resize_nearest_ok 542 542 hb wb cb real_image Hhb Hwb Hb)
    as (rb & Erb & Hrb & _).
  assert (Hda : dims ra = (542, 542, ca)) by (apply has_shape_dims; [lia..|done]).
  assert (Hdb : dims rb = (542, 542, cb)) by (apply has_shape_dims; [lia..|done]).
  split.
  - intros Hne. unfold random_jitter, resize. rewrite Era, Erb.
    unfold mbind, result_bind, random_crop, stack.
    rewrite decide_False; [done|]. rewrite Hda, Hdb. congruence.
  - intros <- Hlt. unfold random_jitter, resize. rewrite Era, Erb.
    unfold mbind, result_bind, random_crop, stack.
    rewrite decide_True by congruence.
    unfold mbind, result_bind, tf_random_crop. cbn [length hd]. rewrite Hda.
    assert (Hc : (3 <=? ca) = false) by (apply Nat.leb_gt; lia).
    rewrite Hc, !andb_false_r. reflexivity.
Qed.

Lemma random_jitter_channel_errors_witness :
  has_shape 1 1 3 demo_input /\
  has_shape 1 1 1 [[[5%Q]]] /\
  random_jitter demo_draws demo_input [[[5%Q]]]
  = Err (InvalidArgumentError "stack") /\
  random_jitter demo_draws [[[5%Q]]] [[[5%Q]]]
  = Err (InvalidArgumentError "random_crop").
Proof.
  assert (Hg : has_shape 1 1 1 [[[5%Q]]]).
  { apply (bool_decide_unpack _). vm_compute. exact I. }
  split; [exact demo_input_shape|]. split; [exact Hg|]. split.
  - apply (proj1 (random_jitter_channel_errors demo_draws demo_input [[[5%Q]]]
                    1 1 3 1 1 1 ltac:(lia) ltac:(lia) ltac:(lia) ltac:(lia)
                    demo_input_shape Hg)). lia.
  - apply (proj2 (random_jitter_channel_errors demo_draws [[[5%Q]]] [[[5%Q]]]
                    1 1 1 1 1 1 ltac:(lia) ltac:(lia) ltac:(lia) ltac:(lia)
                    Hg Hg)); lia.
Defined.

(** ** Where the pixels of the augmented images come from *)

Lemma slice1_nth {B} (off size i : nat) (l : list B) (d : B) :
  i < size -> nth i (slice1 off size l) d = nth (off + i) l d.
Proof.
  intros Hi. unfold slice1. rewrite nth_firstn.
  assert (E : (i <? size) = true) by (apply Nat.ltb_lt; lia).
  rewrite E. apply nth_skipn.
Qed.

Lemma window_nth {T} (oy ox sh sw h w : nat) (img : image T) (y x : nat) :
  has_shape h w 3 img ->
  oy + sh <= h -> ox + sw <= w -> y < sh -> x < sw ->
  nth x (nth y (window oy ox 0 sh sw 3 img) []) []
  = nth (ox + x) (nth (oy + y) img []) [].
Proof.
  intros Himg Hy Hx Hyy Hxx. unfold window.
  rewrite slice1_nth by assumption.
  set (f := fun row : list (list T) => slice1 ox sw (map (slice1 0 3) row)).
  assert (Hf : f [] = []).
  { unfold f, slice1. simpl. by rewrite drop_nil, take_nil. }
  rewrite <- Hf at 1. rewrite map_nth. unfold f.
  rewrite slice1_nth by assumption.
  destruct (has_shape_row h w 3 img (oy + y) Himg ltac:(lia)) as [Hl Hp].
  assert (Hs : slice1 0 3 (@nil T) = []) by reflexivity.
  rewrite <- Hs at 1. rewrite map_nth.
  unfold slice1. rewrite drop_0. apply take_ge.
  rewrite Forall_nth in Hp. rewrite Hp; lia.
Qed.

Lemma flip_left_right_nth {T} (h w c : nat) (img : image T) (y x : nat) :
  has_shape h w c img -> y < h -> x < w ->
  nth x (nth y (flip_left_right img) []) []
  = nth (w - S x) (nth y img []) [].
Proof.
  intros Himg Hy Hx. unfold flip_left_right.
  change (@nil (list T)) with (rev (@nil (list T))) at 1.
  rewrite map_nth.
  destruct (has_shape_row h w c img y Himg Hy) as [Hl _].
  rewrite rev_nth by lia. by rewrite Hl.
Qed.

(** The pixel at row y and column x of each returned image is the pixel of
    the resized image at row crop_y mod 31 + y and at the column
    crop_x mod 31 + x, counted from the right end of the window when the
    flip is drawn: one position for the input and the target. *)
Theorem random_jitter_pixel_correspondence {T} (d : draws)
    (input_image real_image : image T) (ha wa hb wb : nat) :
  0 < ha -> 0 < wa -> 0 < hb -> 0 < wb ->
  has_shape ha wa 3 input_image ->
  has_shape hb wb 3 real_image ->
  exists ra rb ja jb,
    resize input_image real_image 542 542 = Ok (ra, rb) /\
    random_jitter d input_image real_image = Ok (ja, jb) /\
    forall y x, y < 512 -> x < 512 ->
      let sy := crop_y d mod 31 + y in
      let sx := crop_x d mod 31 + (if flip_decision d then 511 - x else x) in
      sy < 542 /\ sx < 542 /\
      nth x (nth y ja []) [] = nth sx (nth sy ra []) [] /\
      nth x (nth y jb []) [] = nth sx (nth sy rb []) [].
Proof.
  intros Hha Hwa Hhb Hwb Ha Hb.
  destruct (resize_ok 542 542 ha wa hb wb 3 input_image real_image)
    as (ra & rb & Eres & Hra & Hrb & _); try assumption.
  pose proof (random_crop_ok d ra rb Hra Hrb) as Ecrop.
  pose proof (Nat.mod_upper_bound (crop_y d) 31 ltac:(lia)) as Hoy.
  pose proof (Nat.mod_upper_bound (crop_x d) 31 ltac:(lia)) as Hox.
  set (oy := crop_y d mod 31) in *. set (ox := crop_x d mod 31) in *.
  assert (Hwa' : has_shape 512 512 3 (window oy ox 0 512 512 3 ra)).
  { eapply window_shape; [exact Hra|lia..]. }
  assert (Hwb' : has_shape 512 512 3 (window oy ox 0 512 512 3 rb)).
  { eapply window_shape; [exact Hrb|lia..]. }
  exists ra, rb.
  unfold random_jitter. rewrite Eres. unfold mbind, result_bind.
  rewrite Ecrop. destruct (flip_decision d).
  - eexists _, _. split; [reflexivity|]. split; [reflexivity|].
    intros y x Hy Hx. cbv zeta. split; [lia|]. split; [lia|].
    rewrite !(flip_left_right_nth 512 512 3) by assumption.
    replace (512 - S x) with (511 - x) by lia.
    rewrite !(window_nth oy ox 512 512 542 542) by (assumption || lia).
    done.
  - eexists _, _. split; [reflexivity|]. split; [reflexivity|].
    intros y x Hy Hx. cbv zeta. split; [lia|]. split; [lia|].
    rewrite !(window_nth oy ox 512 512 542 542) by (assumption || lia).
    done.
Qed.

Lemma random_jitter_pixel_correspondence_witness :
  has_shape 1 1 3 demo_input /\ has_shape 1 2 3 demo_target /\
  exists ra rb ja jb,
    resize demo_input demo_target 542 542 = Ok (ra, rb) /\
    random_jitter demo_draws demo_input demo_target = Ok (ja, jb) /\
    nth 0 (nth 0 ja []) [] = nth (7 + 511) (nth (9 + 0) ra []) [] /\
    nth 0 (nth 0 jb []) [] = nth (7 + 511) (nth (9 + 0) rb []) [].
Proof.
  split; [exact demo_input_shape|]. split; [exact demo_target_shape|].
  destruct (random_jitter_pixel_correspondence demo_draws demo_input
              demo_target 1 1 1 2 ltac:(lia) ltac:(lia) ltac:(lia) ltac:(lia)
              demo_input_shape demo_target_shape)
    as (ra & rb & ja & jb & Er & Ej & Hpx).
  exists ra, rb, ja, jb. split; [exact Er|]. split; [exact Ej|].
  destruct (Hpx 0 0 ltac:(lia) ltac:(lia)) as (_ & _ & H1 & H2).
  split; [exact H1|exact H2].
Defined.

(** ** The preview and the normalization *)

Lemma tmap_image_eq_ext (f g : Q -> Q) (img : image Q) :
  (forall x, f x == g x)%Q -> image_eq (tmap f img) (tmap g img).
Proof.
  intros Hf. unfold image_eq, tmap.
  induction img as [|row img IH]; [constructor|].
  simpl. constructor; [|exact IH]. clear IH.
  induction row as [|px row IH]; [constructor|].
  simpl. constructor; [|exact IH]. clear IH.
  induction px as [|x px IH]; simpl; constructor; auto.
Qed.

Lemma display_value (x : Q) :
  ((x / (255 # 2) - 1) * (1 # 2) + (1 # 2) == x / 255)%Q.
Proof. field. Qed.

Lemma display_value_range (x : Q) :
  (0 <= x <= 255 -> 0 <= (x / (255 # 2) - 1) * (1 # 2) + (1 # 2) <= 1)%Q.
Proof.
  intros [Hlo Hhi]. unfold Qdiv.
  change (/ (255 # 2))%Q with (2 # 255)%Q. split; lra.
Qed.

(** The figure of a preview shows a normalized example at x * 0.5 + 0.5:
    for an example normalized from values x in [0, 255], the values shown
    for the input and for the ground truth are x / 255, in [0, 1]. *)
Theorem preview_shows_pixel_fractions (tensor : Type)
    (vars : gmap positive tensor) (m : model tensor (batch Q))
    (input_image real_image : image Q) :
  in_range 0 255 input_image ->
  in_range 0 255 real_image ->
  exists shown_input shown_truth shown_prediction,
    generate_images tensor vars m
      [(normalize input_image real_image).1]
      [(normalize input_image real_image).2]
    = [EvCall (name m) true [[(normalize input_image real_image).1]];
       EvPlot [shown_input; shown_truth; shown_prediction]] /\
    image_eq shown_input (tmap (fun x => x / 255)%Q input_image) /\
    image_eq shown_truth (tmap (fun x => x / 255)%Q real_image) /\
    in_range 0 1 shown_input /\ in_range 0 1 shown_truth.
Proof.
  intros Ha Hb. unfold generate_images. cbn [nth map].
  eexists _, _, _. split; [reflexivity|].
  unfold normalize. cbn [fst snd]. rewrite !tmap_tmap.
  split_and!.
  - apply tmap_image_eq_ext. intros x. apply display_value.
  - apply tmap_image_eq_ext. intros x. apply display_value.
  - eapply tmap_in_range; [|exact Ha]. intros x. apply display_value_range.
  - eapply tmap_in_range; [|exact Hb]. intros x. apply display_value_range.
Qed.

Lemma preview_shows_pixel_fractions_witness :
  in_range 0 255 demo_input /\ in_range 0 255 demo_target /\
  exists shown_input shown_truth shown_prediction,
    generate_images Z (variables demo_world) demo_generator
      [(normalize demo_input demo_target).1]
      [(normalize demo_input demo_target).2]
    = [EvCall Generator true [[(normalize demo_input demo_target).1]];
       EvPlot [shown_input; shown_truth; shown_prediction]] /\
    image_eq shown_input (tmap (fun x => x / 255)%Q demo_input) /\
    image_eq shown_truth (tmap (fun x => x / 255)%Q demo_target) /\
    in_range 0 1 shown_input /\ in_range 0 1 shown_truth.
Proof.
  split; [exact demo_input_range|]. split; [exact demo_target_range|].
  exact (preview_shows_pixel_fractions Z (variables demo_world) demo_generator
           demo_input demo_target demo_input_range demo_target_range).
Defined.

(** ** The optimizers across a training step *)

Section StepInvariants.

Variable tensor : Type.
Variable generator : model tensor (batch Q).
Variable discriminator : model tensor tensor.
Variable generator_loss : tensor -> batch Q -> batch Q -> tensor * tensor * tensor.
Variable discriminator_loss : tensor -> tensor -> tensor.
Variable partial :
  (gmap positive tensor -> tensor) -> gmap positive tensor -> positive -> tensor.
Variable adam :
  nat -> option (tensor * tensor) -> tensor -> tensor -> tensor * (tensor * tensor).

Lemma apply_gradients_iterations (opt : optimizer tensor)
    (gvs : list (tensor * positive)) (vars : gmap positive tensor) :
  iterations (apply_gradients tensor adam opt gvs vars).2 = S (iterations opt).
Proof.
  unfold apply_gradients. by destruct (foldl _ _ _) as [vars' sl'].
Qed.

(** One call of [train_step] is one update of each optimizer. *)
Lemma train_step_iterations (w : world tensor)
    (input_image target : batch Q) (step : Z) :
  let w' := (train_step tensor generator discriminator generator_loss
               discriminator_loss partial adam w input_image target step).1 in
  iterations (generator_optimizer w')
  = S (iterations (generator_optimizer w)) /\
  iterations (discriminator_optimizer w')
  = S (iterations (discriminator_optimizer w)).
Proof.
  cbv zeta. unfold train_step, generator_update, discriminator_update.
  set (gg := zip _ (trainable_variables generator)).
  set (dg := zip _ (trainable_variables discriminator)).
  pose proof (apply_gradients_iterations (generator_optimizer w) gg (variables w))
    as Hi1.
  destruct (apply_gradients tensor adam (generator_optimizer w) gg (variables w))
    as [vars1 o1]. cbn [fst snd] in *.
  pose proof (apply_gradients_iterations (discriminator_optimizer w) dg vars1)
    as Hi2.
  destruct (apply_gradients tensor adam (discriminator_optimizer w) dg vars1)
    as [vars2 o2]. cbn [fst snd variables generator_optimizer
                        discriminator_optimizer] in *.
  done.
Qed.

End StepInvariants.

(** ** Paths *)

(** For a path dir/input/base.jpg whose directory and base name contain
    neither "input" nor "jpg", the file read as the target is
    dir/output/base.png. *)
Theorem target_path_of_clean_path (dir base : string) :
  occurs "input" dir = false -> occurs "jpg" dir = false ->
  occurs "input" base = false -> occurs "jpg" base = false ->
  target_path (dir +:+ "/input/" +:+ base +:+ ".jpg")
  = dir +:+ "/output/" +:+ base +:+ ".png".
Proof. apply target_path_clean. Qed.

Lemma target_path_of_clean_path_witness :
  occurs "input" "/d/dataset/training" = false /\
  occurs "jpg" "/d/dataset/training" = false /\
  occurs "input" "a" = false /\ occurs "jpg" "a" = false /\
  target_path ("/d/dataset/training" +:+ "/input/" +:+ "a" +:+ ".jpg")
  = "/d/dataset/training" +:+ "/output/" +:+ "a" +:+ ".png".
Proof.
  assert (H1 : occurs "input" "/d/dataset/training" = false)
    by (vm_compute; reflexivity).
  assert (H2 : occurs "jpg" "/d/dataset/training" = false)
    by (vm_compute; reflexivity).
  assert (H3 : occurs "input" "a" = false) by (vm_compute; reflexivity).
  assert (H4 : occurs "jpg" "a" = false) by (vm_compute; reflexivity).
  split_and!; [exact H1|exact H2|exact H3|exact H4|].
  exact (target_path_of_clean_path "/d/dataset/training" "a" H1 H2 H3 H4).
Defined.

(** A path that contains neither "input" nor "jpg" is its own derived
    path: [load] reads the one file twice and pairs the image with
    itself. *)
Theorem load_pairs_token_free_path_with_itself
    (decode_jpeg : list Byte.byte -> option (image Z))
    (files : gmap string (list Byte.byte)) (p : string) :
  occurs "input" p = false -> occurs "jpg" p = false ->
  target_path p = p /\
  (forall a b, load decode_jpeg files p = Ok (a, b) -> a = b) /\
  (forall contents ia,
     files !! p = Some contents -> decode_jpeg contents = Some ia ->
     load decode_jpeg files p = Ok (cast_float32 ia, cast_float32 ia)).
Proof.
  intros H1 H2.
  assert (E : target_path p = p).
  { unfold target_path. rewrite (replace_absent "input" "output" p) by done.
    by apply replace_absent. }
  split; [exact E|]. split.
  - intros a b (ci & co & ia & ib & Hci & Hia & Hco & Hib & -> & ->)%load_ok_iff.
    rewrite E in Hco. congruence.
  - intros contents ia Hc Hd. apply load_ok_iff.
    exists contents, contents, ia, ia. rewrite E. done.
Qed.

Lemma load_pairs_token_free_path_with_itself_witness :
  occurs "input" "/d/photos/x.jpeg" = false /\
  occurs "jpg" "/d/photos/x.jpeg" = false /\
  target_path "/d/photos/x.jpeg" = "/d/photos/x.jpeg" /\
  load raw_decode {[ "/d/photos/x.jpeg" := [Byte.x01; Byte.x02; Byte.x03] ]}
    "/d/photos/x.jpeg"
  = Ok (cast_float32 [[[1; 2; 3]]]%Z, cast_float32 [[[1; 2; 3]]]%Z).
Proof.
  assert (H1 : occurs "input" "/d/photos/x.jpeg" = false)
    by (vm_compute; reflexivity).
  assert (H2 : occurs "jpg" "/d/photos/x.jpeg" = false)
    by (vm_compute; reflexivity).
  destruct (load_pairs_token_free_path_with_itself raw_decode
              {[ "/d/photos/x.jpeg" := [Byte.x01; Byte.x02; Byte.x03] ]}
              "/d/photos/x.jpeg" H1 H2) as (E & _ & Hl).
  split_and!; [exact H1|exact H2|exact E|].
  apply (Hl [Byte.x01; Byte.x02; Byte.x03]); vm_compute; reflexivity.
Defined.

(** ** What the training stream delivers *)

Lemma resize_nearest_positive {T} (height width h w c : nat)
    (img img' : image T) :
  has_shape h w c img -> resize_nearest height width img = Ok img' ->
  0 < h /\ 0 < w.
Proof.
  intros [Hlen Hrows] E. unfold resize_nearest, dims in E.
  destruct img as [|row img]; [discriminate|].
  simpl in *. inversion Hrows as [|? ? [Hrow _] _]; subst.
  destruct row; [discriminate|]. simpl. lia.
Qed.

(** Whenever the training augmentation succeeds on two rectangular
    images, its results have shape 512 x 512 x 3. *)
Lemma random_jitter_result_shape {T} (d : draws) (a b ja jb : image T)
    (ha wa ca hb wb cb : nat) :
  has_shape ha wa ca a -> has_shape hb wb cb b ->
  random_jitter d a b = Ok (ja, jb) ->
  has_shape 512 512 3 ja /\ has_shape 512 512 3 jb.
Proof.
  intros Ha Hb. unfold random_jitter, resize. unfold mbind, result_bind.
  destruct (resize_nearest 542 542 a) as [ra|] eqn:Era; [|discriminate].
  destruct (resize_nearest 542 542 b) as [rb|] eqn:Erb; [|discriminate].
  destruct (resize_nearest_positive _ _ _ _ _ _ _ Ha Era) as [Hha Hwa].
  destruct (resize_nearest_positive _ _ _ _ _ _ _ Hb Erb) as [Hhb Hwb].
  destruct (resize_nearest_ok 542 542 ha wa ca a Hha Hwa Ha)
    as (ra' & Era' & Hra & _).
  destruct (resize_nearest_ok 542 542 hb wb cb b Hhb Hwb Hb)
    as (rb' & Erb' & Hrb & _).
  rewrite Era in Era'. rewrite Erb in Erb'.
  inversion Era'; inversion Erb'; subst ra' rb'.
  assert (Hda : dims ra = (542, 542, ca)) by (apply has_shape_dims; [lia..|done]).
  assert (Hdb : dims rb = (542, 542, cb)) by (apply has_shape_dims; [lia..|done]).
  unfold random_crop, stack.
  destruct (decide (dims ra = dims rb)) as [Hd|]; [|discriminate].
  assert (cb = ca) as -> by congruence.
  unfold mbind, result_bind, tf_random_crop. cbn [length hd]. rewrite Hda.
  destruct (3 <=? ca) eqn:Hc.
  2:{ rewrite !andb_false_r. discriminate. }
  apply Nat.leb_le in Hc.
  assert (Hcond : (2 <=? 2) && (IMG_HEIGHT <=? 542) && (IMG_WIDTH <=? 542) = true)
    by reflexivity.
  rewrite Hcond. cbn [andb].
  replace (2 - 2 + 1) with 1 by lia. rewrite Nat.mod_1_r.
  cbn [map slice1 drop take nth].
  unfold IMG_HEIGHT, IMG_WIDTH.
  pose proof (Nat.mod_upper_bound (crop_y d) (542 - 512 + 1) ltac:(lia)) as Hoy.
  pose proof (Nat.mod_upper_bound (crop_x d) (542 - 512 + 1) ltac:(lia)) as Hox.
  pose proof (Nat.mod_upper_bound (crop_c d) (ca - 3 + 1) ltac:(lia)) as Hoc.
  set (oy := crop_y d mod (542 - 512 + 1)) in *.
  set (ox := crop_x d mod (542 - 512 + 1)) in *.
  set (oc := crop_c d mod (ca - 3 + 1)) in *.
  assert (Hwa' : has_shape 512 512 3 (window oy ox oc 512 512 3 ra)).
  { eapply window_shape; [exact Hra|lia..]. }
  assert (Hwb' : has_shape 512 512 3 (window oy ox oc 512 512 3 rb)).
  { eapply window_shape; [exact Hrb|lia..]. }
  destruct (flip_decision d); intros [= <- <-].
  - split; by apply flip_left_right_shape.
  - done.
Qed.

Lemma pick_Forall {A} (R : A -> Prop) (r : nat) (buf buf' : list A) (x : A) :
  Forall R buf -> pick r buf = Some (x, buf') -> R x /\ Forall R buf'.
Proof.
  intros Hbuf. unfold pick.
  destruct (buf !! (r mod length buf)) as [y|] eqn:E; [|discriminate].
  intros [= <- <-]. split.
  - eapply Forall_lookup_1; eauto.
  - pose proof (delete_Permutation buf _ _ E) as Hp.
    rewrite Hp in Hbuf. by apply Forall_cons in Hbuf as [_ ?].
Qed.

Lemma fill_values {A} (R : A -> Prop) (B : nat) (buf : list A) (up : stream A) :
  Forall R buf -> values_in R up ->
  forall tr buf' up',
    fill B buf up = (tr, Ok (buf', up')) ->
    Forall R buf' /\ values_in R up'.
Proof.
  revert buf. induction up as [|[tr0 r] up IH]; intros buf Hbuf Hup tr buf' up'.
  - simpl. intros [= <- <- <-]. done.
  - simpl. destruct (decide (B <= length buf)).
    { intros [= <- <- <-]. done. }
    apply Forall_cons in Hup as [Hx Hup].
    destruct r as [x|e]; [|discriminate].
    destruct (fill B (buf ++ [x]) up) as [tr1 [[b1 u1]|e]] eqn:E; [|discriminate].
    intros [= <- <- <-]. eapply IH; [|exact Hup|exact E].
    apply Forall_app. split; [done|]. constructor; [|constructor].
    by apply Hx.
Qed.

Lemma shuffle_go_values {A} (R : A -> Prop) (B : nat) (tape : nat -> nat)
    (pos fuel : nat) (buf : list A) (up : stream A) :
  Forall R buf -> values_in R up ->
  values_in R (shuffle_go B tape pos fuel buf up).
Proof.
  revert pos buf up. induction fuel as [|fuel IH]; intros pos buf up Hbuf Hup.
  - constructor.
  - simpl. pose proof (fill_values R B buf up Hbuf Hup) as Hfill.
    destruct (fill B buf up) as [tr [[buf' up']|e]].
    + destruct (Hfill tr buf' up' eq_refl) as [Hb' Hu'].
      destruct (pick (tape pos) buf') as [[x buf'']|] eqn:Ep; [|constructor].
      destruct (pick_Forall R _ _ _ _ Hb' Ep) as [Hx Hb''].
      constructor; [|by apply IH].
      intros a [= <-]. exact Hx.
    + constructor; [|constructor]. intros a. discriminate.
Qed.

Lemma until_err_values {A} (R : A -> Prop) (s : stream A) :
  values_in R s -> values_in R (until_err s).
Proof.
  induction 1 as [|[tr [a|e]] s Hx Hs IH]; simpl; constructor; auto.
Qed.

Section DeliveredBatches.

Variable decode_jpeg : list Byte.byte -> option (image Z).
Variable files : gmap string (list Byte.byte).
Variable train_files : list string.

Lemma load_image_train_shape (d : draws) (p : string) (x y : image Q) :
  rectangular_decoder decode_jpeg ->
  load_image_train decode_jpeg files d p = Ok (x, y) ->
  has_shape 512 512 3 x /\ has_shape 512 512 3 y.
Proof.
  intros Hdec. unfold load_image_train, mbind, result_bind.
  destruct (load decode_jpeg files p) as [[a b]|] eqn:El; [|discriminate].
  apply load_ok_iff in El as (ci & co & ia & ib & _ & Hia & _ & Hib & -> & ->).
  destruct (Hdec _ _ Hia) as (ha & wa & ca & Ha).
  destruct (Hdec _ _ Hib) as (hb & wb & cb & Hb).
  destruct (random_jitter d (cast_float32 ia) (cast_float32 ib))
    as [[ja jb]|] eqn:Ej; [|discriminate].
  intros [= <- <-].
  destruct (random_jitter_result_shape d (cast_float32 ia) (cast_float32 ib)
              ja jb ha wa ca hb wb cb) as [H1 H2];
    [by apply tmap_shape|by apply tmap_shape|exact Ej|].
  unfold normalize. cbn [fst snd]. split; by apply tmap_shape.
Qed.

(** With a decoder that yields rectangular tensors, whatever the files,
    their sizes and channels and the draws: every element that an
    iteration over the training set delivers is a batch of exactly one
    input and one target, both of shape 512 x 512 x 3. *)
Theorem train_dataset_delivers_single_pairs (ed : epoch_draws) :
  rectangular_decoder decode_jpeg ->
  values_in training_batch (train_dataset decode_jpeg files train_files ed).
Proof.
  intros Hdec. unfold train_dataset. change BATCH_SIZE with 1.
  rewrite ds_batch_one. apply until_err_values.
  set (R := fun xy : image Q * image Q =>
              has_shape 512 512 3 xy.1 /\ has_shape 512 512 3 xy.2).
  assert (Hs : values_in R
            (ds_shuffle BUFFER_SIZE (buffer_draw ed)
               (ds_map (fun i x =>
                   ([EvLoad x],
                    load_image_train decode_jpeg files (jitter_draw ed i) x))
                  (list_files train_files (files_draw ed))))).
  { unfold ds_shuffle. apply shuffle_go_values; [constructor|].
    unfold ds_map. apply Forall_forall. intros el Hel.
    apply elem_of_lookup_imap_1 in Hel as (i & [tr r] & -> & _).
    destruct r as [p|e]; [|intros a; discriminate].
    cbn [snd]. intros [x y] E. unfold R. cbn [fst snd].
    by eapply load_image_train_shape. }
  apply Forall_map. eapply Forall_impl; [exact Hs|].
  intros [tr [[a b]|e]] Hx xy; simpl; [|discriminate].
  intros [= <-]. exists a, b. split; [done|]. apply (Hx (a, b) eq_refl).
Qed.

End DeliveredBatches.

Lemma raw_decode_rectangular : rectangular_decoder raw_decode.
Proof.
  intros contents img. unfold raw_decode.
  destruct (raw_pixels contents) as [[|px row]|] eqn:E; try discriminate.
  intros [= <-].
  destruct (raw_pixels_byte_valued (length contents) contents (px :: row)
              (le_n _) E) as [_ H].
  exists 1, (length (px :: row)), 3. split; [done|].
  constructor; [|constructor]. split; [done|exact H].
Qed.

Lemma train_dataset_delivers_single_pairs_witness :
  rectangular_decoder raw_decode /\
  values_in training_batch
    (train_dataset raw_decode demo_files demo_train_files (demo_epoch 0)).
Proof.
  split; [exact raw_decode_rectangular|].
  exact (train_dataset_delivers_single_pairs raw_decode demo_files
           demo_train_files (demo_epoch 0) raw_decode_rectangular).
Defined.

(** ** One iteration over the training set *)

Lemma ds_map_list_files_indexed {B} (f : nat -> string -> trace * result B)
    (matched : list string) (tape : nat -> nat) :
  ds_map f (list_files matched tape)
  = imap f (shuffle_all tape 0 (length matched) matched).
Proof.
  unfold ds_map, list_files.
  generalize (shuffle_all tape 0 (length matched) matched). intros l.
  revert f. induction l as [|p l IH]; intros f; [done|].
  cbn [map]. rewrite !imap_cons. f_equal; [by destruct (f 0 p)|].
  apply (IH (fun i => f (S i))).
Qed.

Lemma imap_load_events {B} (r : nat -> string -> result B) (l : list string) :
  stream_events (imap (fun i p => ([EvLoad p], r i p)) l) = map EvLoad l.
Proof.
  unfold stream_events. revert r.
  induction l as [|p l IH]; intros r; [done|].
  rewrite imap_cons. cbn [map concat fst app]. f_equal.
  apply (IH (fun i => r (S i))).
Qed.

Lemma fill_events {A} (B : nat) (buf : list A) (up : stream A) :
  forall tr buf' up',
    fill B buf up = (tr, Ok (buf', up')) ->
    tr ++ stream_events up' = stream_events up.
Proof.
  revert buf. induction up as [|[tr0 r] up IH]; intros buf tr buf' up'.
  - simpl. by intros [= <- <- <-].
  - simpl. destruct (decide (B <= length buf)).
    { by intros [= <- <- <-]. }
    destruct r as [x|e]; [|discriminate].
    destruct (fill B (buf ++ [x]) up) as [tr1 [[b1 u1]|e]] eqn:E; [|discriminate].
    intros [= <- <- <-]. unfold stream_events in *. cbn [map concat fst].
    rewrite <- app_assoc. f_equal. by eapply IH.
Qed.

Lemma shuffle_go_events {A} (B : nat) (tape : nat -> nat) (pos fuel : nat)
    (buf : list A) (up : stream A) :
  all_ok up -> 0 < B -> fuel = length buf + length up ->
  stream_events (shuffle_go B tape pos fuel buf up) = stream_events up.
Proof.
  revert pos buf up. induction fuel as [|fuel IH]; intros pos buf up Hup HB Hf.
  - destruct up; [done|simpl in Hf; lia].
  - simpl.
    destruct (fill_all_ok B buf up Hup HB) as (tr & buf' & up' & E & Hok & Hlen & Hne).
    rewrite E. pose proof (fill_events B buf up tr buf' up' E) as Hev.
    destruct (pick_Some (tape pos) buf') as (x & buf'' & Epick & Hperm).
    { apply Hne. lia. }
    rewrite Epick. apply Permutation_length in Hperm. simpl in Hperm.
    unfold stream_events in *. cbn [map concat fst].
    rewrite (IH (S pos) buf'' up' Hok HB) by lia. exact Hev.
Qed.

Lemma until_err_all_ok {A} (s : stream A) : all_ok s -> until_err s = s.
Proof.
  induction 1 as [|[tr [a|e]] s Hx Hs IH]; simpl; [done| |discriminate].
  by rewrite IH.
Qed.

Lemma map_batch1_facts {A} (s : stream (A * A)) :
  all_ok s ->
  all_ok (map batch1 s) /\
  stream_events (map batch1 s) = stream_events s.
Proof.
  unfold stream_events.
  induction 1 as [|[tr [[a b]|e]] s Hx Hs [IH1 IH2]]; simpl;
    [split; [constructor|done]| |discriminate].
  split; [by constructor|]. by rewrite IH2.
Qed.

Section Epoch.

Variable decode_jpeg : list Byte.byte -> option (image Z).
Variable files : gmap string (list Byte.byte).
Variable train_files : list string.

(** Over training pairs that all load, one iteration over the training
    set delivers as many batches as there are matched files and loads each
    matched file exactly once, in the order of the listing. *)
Theorem train_epoch_loads_each_file_once (ed : epoch_draws) :
  Forall (loadable decode_jpeg files) train_files ->
  length (train_dataset decode_jpeg files train_files ed)
  = length train_files /\
  stream_events (train_dataset decode_jpeg files train_files ed)
  = map EvLoad (shuffle_all (files_draw ed) 0 (length train_files) train_files) /\
  shuffle_all (files_draw ed) 0 (length train_files) train_files
  ≡ₚ train_files.
Proof.
  intros Hall. rewrite Forall_forall in Hall.
  pose proof (shuffle_all_Permutation (files_draw ed) 0 (length train_files)
                train_files eq_refl) as Hperm.
  unfold train_dataset. change BATCH_SIZE with 1. rewrite ds_batch_one.
  rewrite ds_map_list_files_indexed.
  set (order := shuffle_all (files_draw ed) 0 (length train_files) train_files)
    in *.
  set (u := imap _ order).
  assert (Hu : all_ok u).
  { apply Forall_forall. intros el Hel.
    apply elem_of_lookup_imap_1 in Hel as (i & p & -> & Hp).
    cbn [snd]. apply load_image_train_ok. apply Hall.
    rewrite <- Hperm. by eapply list_elem_of_lookup_2. }
  assert (Hlen : length u = length train_files).
  { unfold u. rewrite length_imap. by apply Permutation_length. }
  destruct (shuffle_go_all_ok BUFFER_SIZE (buffer_draw ed) 0 (length u) [] u Hu)
    as [S1 S2]; [unfold BUFFER_SIZE; lia|done|].
  pose proof (shuffle_go_events BUFFER_SIZE (buffer_draw ed) 0 (length u) [] u Hu)
    as S3.
  specialize (S3 ltac:(unfold BUFFER_SIZE; lia) eq_refl).
  unfold ds_shuffle.
  destruct (map_batch1_facts _ S1) as [B1 B2].
  rewrite (until_err_all_ok _ B1). split_and!.
  - by rewrite length_map, S2.
  - etransitivity; [exact B2|]. etransitivity; [exact S3|].
    apply imap_load_events.
  - exact Hperm.
Qed.

Lemma fill_fails {A} (B : nat) (buf : list A) (up : stream A) :
  length buf + length up <= B ->
  Exists (fun x => is_ok x.2 = false) up ->
  exists tr e, fill B buf up = (tr, Err e).
Proof.
  revert buf. induction up as [|[tr0 r] up IH]; intros buf Hlen Hex.
  - by apply Exists_nil in Hex.
  - simpl in *. rewrite decide_False by lia.
    destruct r as [x|e]; [|eauto].
    apply Exists_cons in Hex as [Hex|Hex]; [discriminate|].
    destruct (IH (buf ++ [x])) as (tr & e & E); [|done|].
    { rewrite length_app. simpl. lia. }
    rewrite E. eauto.
Qed.

(** With no more matched files than the shuffle buffer holds, one pair
    that does not load makes the whole iteration over the training set a
    single raised exception: the buffer is filled, and every file before
    the failing one loaded, before a first batch is delivered. *)
Lemma train_dataset_fails_at_once (ed : epoch_draws) (p : string) :
  length train_files <= BUFFER_SIZE ->
  p ∈ train_files ->
  is_ok (load decode_jpeg files p) = false ->
  exists tr e, train_dataset decode_jpeg files train_files ed = [(tr, Err e)].
Proof.
  intros Hlen Hp Hload.
  pose proof (shuffle_all_Permutation (files_draw ed) 0 (length train_files)
                train_files eq_refl) as Hperm.
  unfold train_dataset. change BATCH_SIZE with 1. rewrite ds_batch_one.
  rewrite ds_map_list_files_indexed.
  set (order := shuffle_all (files_draw ed) 0 (length train_files) train_files)
    in *.
  set (u := imap _ order).
  assert (Hlu : length u = length train_files).
  { unfold u. rewrite length_imap. by apply Permutation_length. }
  assert (Hex : Exists (fun x => is_ok x.2 = false) u).
  { rewrite <- Hperm in Hp. apply list_elem_of_lookup_1 in Hp as [i Hi].
    apply Exists_exists.
    exists ([EvLoad p],
            load_image_train decode_jpeg files (jitter_draw ed i) p).
    split.
    - exact (elem_of_lookup_imap_2
               (fun (i : nat) (x : string) =>
                  ([EvLoad x],
                   load_image_train decode_jpeg files (jitter_draw ed i) x))
               order p i Hi).
    - cbn [snd]. unfold load_image_train.
      destruct (load decode_jpeg files p); [discriminate|done]. }
  destruct (fill_fails BUFFER_SIZE [] u) as (tr & e & E); [simpl; lia|done|].
  exists tr, e. unfold ds_shuffle.
  destruct (length u) as [|n] eqn:En.
  { destruct u; [by apply Exists_nil in Hex|discriminate]. }
  cbn [shuffle_go]. rewrite E. reflexivity.
Qed.

End Epoch.

(** ** Runs of the training loop *)

Lemma only_loads_count (f : event -> bool) (tr : trace) :
  (forall p, f (EvLoad p) = false) ->
  forallb is_load tr = true -> count_events f tr = 0.
Proof.
  intros Hf. induction tr as [|e tr IH]; [done|]. simpl.
  intros [He Htr]%andb_prop. destruct e; try discriminate.
  rewrite Hf. by rewrite IH.
Qed.

Section FitMore.

Variable tensor : Type.
Variable generator : model tensor (batch Q).
Variable discriminator : model tensor tensor.
Variable generator_loss : tensor -> batch Q -> batch Q -> tensor * tensor * tensor.
Variable discriminator_loss : tensor -> tensor -> tensor.
Variable partial :
  (gmap positive tensor -> tensor) -> gmap positive tensor -> positive -> tensor.
Variable adam :
  nat -> option (tensor * tensor) -> tensor -> tensor -> tensor * (tensor * tensor).
Variable train_rnd : nat -> epoch_draws.
Variable test_rnd : nat -> epoch_draws.
Variable decode_jpeg : list Byte.byte -> option (image Z).
Variable files : gmap string (list Byte.byte).
Variable train_files : list string.
Variable test_files : list string.

Local Abbreviation train_ds := (train_dataset decode_jpeg files train_files).
Local Abbreviation test_ds := (test_dataset decode_jpeg files test_files).
Local Abbreviation body :=
  (fit_body tensor generator discriminator generator_loss discriminator_loss
     partial adam).
Local Abbreviation loop :=
  (fit_loop tensor generator discriminator generator_loss discriminator_loss
     partial adam train_rnd).
Local Abbreviation run :=
  (fit tensor generator discriminator generator_loss discriminator_loss
     partial adam train_rnd test_rnd).
Local Abbreviation good := (pair_loads decode_jpeg files).

(** With no more matched training files than the shuffle buffer holds and
    one pair among them that does not load, a run of [fit] for a number of
    steps other than zero ends with an exception before its first step:
    its trace holds loads and nothing else, so no forward pass, no preview
    and no update. *)
Theorem fit_fails_before_first_step (p : string) (fuel : nat)
    (w : world tensor) (steps : Z) :
  length train_files <= BUFFER_SIZE ->
  p ∈ train_files ->
  is_ok (load decode_jpeg files p) = false ->
  steps <> 0%Z -> 0 < fuel ->
  exists tr e,
    run fuel w train_ds test_ds steps = (tr, Raised tensor e) /\
    forallb is_load tr = true /\
    count_events is_call tr = 0 /\
    count_events is_train_step tr = 0.
Proof.
  intros Hlen Hp Hload Hsteps Hfuel.
  assert (Hmain : exists tr e,
            run fuel w train_ds test_ds steps = (tr, Raised tensor e) /\
            forallb is_load tr = true).
  { unfold fit.
    pose proof (test_dataset_inv decode_jpeg files test_files (test_rnd 0)) as Ht.
    destruct (test_ds (test_rnd 0))
      as [|[tr0 [[example_input example_target]|e]] rest]; cbn [take].
    - by exists [], StopIteration.
    - apply Forall_cons in Ht as [Hx _].
      pose proof (elem_inv_only_loads good _ Hx) as Hl0. cbn [fst] in Hl0.
      destruct fuel as [|fuel']; [lia|]. cbn [fit_loop].
      rewrite decide_False by lia.
      destruct (train_dataset_fails_at_once decode_jpeg files train_files
                  (train_rnd 0) p Hlen Hp Hload) as (tr & e & E).
      pose proof (train_dataset_inv decode_jpeg files train_files (train_rnd 0))
        as Hinv.
      rewrite E in *. apply Forall_cons in Hinv as [Hy _].
      pose proof (elem_inv_only_loads good _ Hy) as Hl1. cbn [fst] in Hl1.
      exists (tr0 ++ tr), e. split; [done|].
      rewrite forallb_app. by rewrite Hl0, Hl1.
    - apply Forall_cons in Ht as [Hx _].
      pose proof (elem_inv_only_loads good _ Hx) as Hl0. cbn [fst] in Hl0.
      by exists tr0, e. }
  destruct Hmain as (tr & e & E & Hl). exists tr, e.
  split_and!; [done..| |]; by apply only_loads_count.
Qed.

Lemma preview_step (step : Z) :
  (0 <= step)%Z ->
  ((step + 1 + 999) / 1000
   = (step + 999) / 1000 + (if decide (step mod 1000 = 0) then 1 else 0))%Z.
Proof.
  intros Hs. destruct (decide (step mod 1000 = 0)%Z) as [H|H];
    Z.div_mod_to_equations; lia.
Qed.

Lemma dot_step (step : Z) :
  (0 <= step)%Z ->
  ((step + 1) / 10
   = step / 10 + (if decide ((step + 1) mod 10 = 0) then 1 else 0))%Z.
Proof.
  intros Hs. destruct (decide ((step + 1) mod 10 = 0)%Z) as [H|H];
    Z.div_mod_to_equations; lia.
Qed.

Lemma fit_body_counts (w : world tensor) (example_input example_target : batch Q)
    (step : Z) (input_image target : batch Q) :
  let tr := (body w example_input example_target step input_image target).2 in
  count_events is_plot tr = (if decide (step mod 1000 = 0)%Z then 1 else 0) /\
  count_events is_dot tr = (if decide ((step + 1) mod 10 = 0)%Z then 1 else 0) /\
  count_events is_call tr
  = 3 + (if decide (step mod 1000 = 0)%Z then 1 else 0) /\
  count_events is_summary tr = 4.
Proof.
  unfold fit_body, train_step, generate_images.
  destruct (generator_update _ _ _ _ _ _ _ _ _ _) as [vars1 o1].
  destruct (discriminator_update _ _ _ _ _ _ _ _ _ _ _) as [vars2 o2].
  cbn [snd].
  destruct (decide (step mod 1000 = 0)%Z);
    destruct (decide (step <> 0)%Z);
    destruct (decide ((step + 1) mod 10 = 0)%Z);
    destruct (decide ((step + 1) mod 5000 = 0)%Z);
    split_and!; reflexivity.
Qed.

Lemma fit_loop_counts (n : nat) :
  forall (fuel : nat) (step : Z) (epoch : nat)
         (cur : stream (batch Q * batch Q))
         (example_input example_target : batch Q) (w : world tensor),
  n < fuel -> (0 <= step)%Z ->
  all_ok cur -> stream_inv good cur ->
  train_files <> [] ->
  Forall (loadable decode_jpeg files) train_files ->
  exists w' tr,
    loop fuel train_ds (step + Z.of_nat n)%Z step epoch cur
      example_input example_target w = (tr, Finished tensor w') /\
    Z.of_nat (count_events is_plot tr)
    = ((step + Z.of_nat n + 999) / 1000 - (step + 999) / 1000)%Z /\
    Z.of_nat (count_events is_dot tr)
    = ((step + Z.of_nat n) / 10 - step / 10)%Z /\
    count_events is_call tr = 3 * n + count_events is_plot tr /\
    count_events is_summary tr = 4 * n.
Proof.
  induction n as [|n IH];
    intros fuel step epoch cur example_input example_target w
           Hfuel Hstep Hok Hinv Hne Hall.
  - destruct fuel as [|fuel]; [lia|]. cbn [fit_loop].
    rewrite decide_True by lia. exists w, []. simpl.
    rewrite Z.add_0_r. split_and!; [done|lia|lia|done|done].
  - destruct fuel as [|fuel]; [lia|]. cbn [fit_loop].
    rewrite decide_False by lia.
    set (nxt := match cur with
                | [] => (S epoch, train_ds (train_rnd epoch))
                | _ :: _ => (epoch, cur)
                end).
    assert (Hnxt : all_ok nxt.2 /\ stream_inv good nxt.2 /\ nxt.2 <> []).
    { subst nxt. destruct cur as [|x cur].
      - destruct (train_dataset_ok decode_jpeg files train_files
                    (train_rnd epoch) Hne Hall) as [H1 H2].
        split_and!; [exact H1|apply train_dataset_inv|exact H2].
      - split_and!; [exact Hok|exact Hinv|done]. }
    destruct nxt as [epoch' cur']. cbn [snd] in Hnxt.
    destruct Hnxt as (Hok' & Hinv' & Hne').
    destruct cur' as [|[tr r] rest]; [done|].
    apply Forall_cons in Hok' as [Hr Hok']. simpl in Hr.
    apply Forall_cons in Hinv' as [Hx Hinv'].
    destruct r as [[input_image target]|e]; [|discriminate].
    pose proof (fit_body_counts w example_input example_target step
                  input_image target) as Hb.
    destruct (body w example_input example_target step input_image target)
      as [w1 trb]. cbn [snd] in Hb. cbv zeta in Hb.
    destruct Hb as (Hb1 & Hb2 & Hb3 & Hb4).
    destruct (IH fuel (step + 1)%Z epoch' rest example_input example_target w1)
      as (w' & trr & El & Hc1 & Hc2 & Hc3 & Hc4); [lia|lia|done..|].
    replace (step + Z.of_nat (S n))%Z with (step + 1 + Z.of_nat n)%Z by lia.
    rewrite El. exists w', (tr ++ trb ++ trr). split; [done|].
    pose proof (elem_inv_only_loads good _ Hx) as Hl. cbn [fst] in Hl.
    rewrite !count_events_app.
    rewrite !(only_loads_count _ tr) by done.
    rewrite Hb1, Hb2, Hb3, Hb4, Hc3, Hc4.
    pose proof (preview_step step Hstep) as Hp.
    pose proof (dot_step step Hstep) as Hd.
    destruct (decide (step mod 1000 = 0)%Z);
      destruct (decide ((step + 1) mod 10 = 0)%Z);
      split_and!; lia.
Qed.

(** The progress of a run that ends: over loadable pairs and for a number
    of steps that is not negative, [fit] shows a preview at each step that
    is a multiple of 1000, which makes ceil(steps / 1000) previews; it prints steps // 10 progress marks,
    writes four summaries per step, and makes three forward passes per
    step and one per preview. *)
Theorem fit_event_counts (steps : Z) (fuel : nat) (w : world tensor) :
  (0 <= steps)%Z ->
  Z.to_nat steps < fuel ->
  train_files <> [] ->
  Forall (loadable decode_jpeg files) train_files ->
  test_files <> [] ->
  Forall (loadable decode_jpeg files) test_files ->
  exists w' tr,
    run fuel w train_ds test_ds steps = (tr, Finished tensor w') /\
    Z.of_nat (count_events is_plot tr) = ((steps + 999) / 1000)%Z /\
    Z.of_nat (count_events is_dot tr) = (steps / 10)%Z /\
    Z.of_nat (count_events is_call tr)
    = (3 * steps + (steps + 999) / 1000)%Z /\
    Z.of_nat (count_events is_summary tr) = (4 * steps)%Z.
Proof.
  intros Hsteps Hfuel Hne Hall Hne' Hall'. unfold fit.
  destruct (test_dataset_ok decode_jpeg files test_files (test_rnd 0) Hne' Hall')
    as [Hok Hnn].
  pose proof (test_dataset_inv decode_jpeg files test_files (test_rnd 0)) as Hinv.
  destruct (test_ds (test_rnd 0)) as [|[tr0 r] rest]; [done|].
  apply Forall_cons in Hok as [Hr _]. simpl in Hr.
  apply Forall_cons in Hinv as [Hx _].
  destruct r as [[example_input example_target]|e]; [|discriminate].
  cbn [take].
  destruct (fit_loop_counts (Z.to_nat steps) fuel 0%Z 0 []
              example_input example_target w)
    as (w' & tr & El & Hc1 & Hc2 & Hc3 & Hc4);
    [lia|lia|constructor|constructor|done..|].
  rewrite Z.add_0_l, Z2Nat.id in El by lia. rewrite El.
  exists w', (tr0 ++ tr). split; [done|].
  pose proof (elem_inv_only_loads good _ Hx) as Hl. cbn [fst] in Hl.
  rewrite !count_events_app.
  rewrite !(only_loads_count _ tr0) by done.
  rewrite !Z.add_0_l, !Z2Nat.id in * by lia.
  change (999 / 1000)%Z with 0%Z in Hc1.
  change (0 / 10)%Z with 0%Z in Hc2.
  simpl. split_and!; lia.
Qed.

Lemma steps_before_app (f : event -> bool) (done : nat) (tr1 tr2 : trace) :
  (forall e, f e = true -> is_train_step e = false) ->
  steps_before f done (tr1 ++ tr2)
  = steps_before f done tr1
    ++ steps_before f (done + count_events is_train_step tr1) tr2.
Proof.
  intros Hf. revert done. induction tr1 as [|e tr1 IH]; intros done.
  - simpl. by rewrite Nat.add_0_r.
  - simpl. destruct (f e) eqn:Ef.
    + rewrite (Hf e Ef). simpl. by rewrite IH.
    + rewrite IH. destruct (is_train_step e); simpl; f_equal; f_equal; lia.
Qed.

Lemma steps_before_loads (f : event -> bool) (done : nat) (tr : trace) :
  (forall p, f (EvLoad p) = false) ->
  forallb is_load tr = true -> steps_before f done tr = [].
Proof.
  intros Hf. induction tr as [|e tr IH]; [done|]. simpl.
  intros [He Htr]%andb_prop. destruct e; try discriminate.
  rewrite Hf. simpl. by apply IH.
Qed.

Lemma fit_body_marks (w : world tensor) (example_input example_target : batch Q)
    (step : Z) (input_image target : batch Q) (done : nat) :
  let tr := (body w example_input example_target step input_image target).2 in
  steps_before is_checkpoint done tr
  = (if decide ((step + 1) mod 5000 = 0)%Z then [S done] else []) /\
  steps_before is_plot done tr
  = (if decide (step mod 1000 = 0)%Z then [done] else []).
Proof.
  unfold fit_body, train_step, generate_images.
  destruct (generator_update _ _ _ _ _ _ _ _ _ _) as [vars1 o1].
  destruct (discriminator_update _ _ _ _ _ _ _ _ _ _ _) as [vars2 o2].
  cbn [snd].
  destruct (decide (step mod 1000 = 0)%Z);
    destruct (decide (step <> 0)%Z);
    destruct (decide ((step + 1) mod 10 = 0)%Z);
    destruct (decide ((step + 1) mod 5000 = 0)%Z);
    split; reflexivity.
Qed.

Lemma fit_loop_marks (fuel : nat) :
  forall (steps : Z) (done : nat) (epoch : nat)
         (cur : stream (batch Q * batch Q))
         (example_input example_target : batch Q) (w : world tensor),
  stream_inv good cur ->
  let tr := (loop fuel train_ds steps (Z.of_nat done) epoch cur
               example_input example_target w).1 in
  Forall (fun k => 0 < k /\ (Z.of_nat k mod 5000 = 0)%Z) (steps_before is_checkpoint done tr) /\
  Forall (fun k => (Z.of_nat k mod 1000 = 0)%Z) (steps_before is_plot done tr).
Proof.
  induction fuel as [|fuel IH];
    intros steps done epoch cur example_input example_target w Hcur.
  - simpl. split; constructor.
  - cbn [fit_loop].
    destruct (decide (0 <= steps /\ steps <= Z.of_nat done)%Z).
    { simpl. split; constructor. }
    set (nxt := match cur with
                | [] => (S epoch, train_ds (train_rnd epoch))
                | _ :: _ => (epoch, cur)
                end).
    assert (Hnxt : stream_inv good nxt.2).
    { subst nxt. destruct cur; [apply train_dataset_inv|exact Hcur]. }
    destruct nxt as [epoch' cur']. cbn [snd] in Hnxt.
    destruct cur' as [|[tr [[input_image target]|e]] rest].
    + simpl. split; constructor.
    + apply Forall_cons in Hnxt as [Hx Hrest].
      pose proof (elem_inv_only_loads good _ Hx) as Hl. cbn [fst] in Hl.
      pose proof (fit_body_marks w example_input example_target
                    (Z.of_nat done) input_image target done) as Hm.
      pose proof (fit_body_events tensor generator discriminator generator_loss
                    discriminator_loss partial adam w example_input
                    example_target (Z.of_nat done) input_image target) as Hb.
      destruct (body w example_input example_target (Z.of_nat done)
                  input_image target) as [w' trb].
      cbn [snd] in Hm, Hb. cbv zeta in Hm, Hb.
      destruct Hm as [Hm1 Hm2]. destruct Hb as (_ & _ & Hb3 & _).
      specialize (IH steps (S done) epoch' rest example_input example_target
                    w' Hrest).
      replace (Z.of_nat (S done)) with (Z.of_nat done + 1)%Z in IH by lia.
      destruct (loop fuel train_ds steps (Z.of_nat done + 1)%Z epoch' rest
                  example_input example_target w') as [trr o].
      cbn [fst] in *. destruct IH as [IH1 IH2].
      rewrite !steps_before_app by (by intros []).
      rewrite !(steps_before_loads _ _ tr) by done.
      rewrite (only_loads_count is_train_step tr) by done.
      rewrite !Nat.add_0_r, Hb3, Hm1, Hm2.
      replace (done + 1) with (S done) by lia.
      rewrite !app_nil_l. split.
      * apply Forall_app_2; [|exact IH1].
        destruct (decide ((Z.of_nat done + 1) mod 5000 = 0)%Z) as [Hd|];
          constructor; [|constructor].
        split; [lia|]. rewrite <- Hd. f_equal. lia.
      * apply Forall_app_2; [|exact IH2].
        destruct (decide (Z.of_nat done mod 1000 = 0)%Z) as [Hd|];
          constructor; [|constructor].
        exact Hd.
    + apply Forall_cons in Hnxt as [Hx _].
      pose proof (elem_inv_only_loads good _ Hx) as Hl. cbn [fst] in Hl.
      cbn [fst]. rewrite !steps_before_loads by done. split; constructor.
Qed.

(** In every run of [fit], however it ends: a checkpoint is only ever
    saved when the number of training steps made so far is a positive
    multiple of 5000, and a preview is only ever shown when it is a
    multiple of 1000. *)
Theorem fit_acts_at_multiples (fuel : nat) (w : world tensor) (steps : Z) :
  Forall (fun k => 0 < k /\ (Z.of_nat k mod 5000 = 0)%Z)
    (steps_before is_checkpoint 0 (run fuel w train_ds test_ds steps).1) /\
  Forall (fun k => (Z.of_nat k mod 1000 = 0)%Z)
    (steps_before is_plot 0 (run fuel w train_ds test_ds steps).1).
Proof.
  unfold fit.
  pose proof (test_dataset_inv decode_jpeg files test_files (test_rnd 0)) as Ht.
  destruct (test_ds (test_rnd 0))
    as [|[tr0 [[example_input example_target]|e]] rest]; cbn [take].
  - simpl. split; constructor.
  - apply Forall_cons in Ht as [Hx _].
    pose proof (elem_inv_only_loads good _ Hx) as Hl. cbn [fst] in Hl.
    pose proof (fit_loop_marks fuel steps 0 0 [] example_input example_target w)
      as Hm.
    change (Z.of_nat 0) with 0%Z in Hm.
    destruct (loop fuel train_ds steps 0%Z 0 [] example_input example_target w)
      as [tr o]. cbn [fst] in *.
    destruct Hm as [Hm1 Hm2]; [constructor|].
    rewrite !steps_before_app by (by intros []).
    rewrite !(steps_before_loads _ _ tr0) by done.
    rewrite (only_loads_count is_train_step tr0) by done.
    simpl. done.
  - apply Forall_cons in Ht as [Hx _].
    pose proof (elem_inv_only_loads good _ Hx) as Hl. cbn [fst] in Hl.
    cbn [fst]. rewrite !steps_before_loads by done. split; constructor.
Qed.

End FitMore.

(** ** The optimizers after a run *)

Section FitOptimizers.

Variable tensor : Type.
Variable generator : model tensor (batch Q).
Variable discriminator : model tensor tensor.
Variable generator_loss : tensor -> batch Q -> batch Q -> tensor * tensor * tensor.
Variable discriminator_loss : tensor -> tensor -> tensor.
Variable partial :
  (gmap positive tensor -> tensor) -> gmap positive tensor -> positive -> tensor.
Variable adam :
  nat -> option (tensor * tensor) -> tensor -> tensor -> tensor * (tensor * tensor).
Variable train_rnd : nat -> epoch_draws.
Variable test_rnd : nat -> epoch_draws.
Variable decode_jpeg : list Byte.byte -> option (image Z).
Variable files : gmap string (list Byte.byte).
Variable train_files : list string.
Variable test_files : list string.

Local Abbreviation train_ds := (train_dataset decode_jpeg files train_files).
Local Abbreviation test_ds := (test_dataset decode_jpeg files test_files).
Local Abbreviation body :=
  (fit_body tensor generator discriminator generator_loss discriminator_loss
     partial adam).
Local Abbreviation loop :=
  (fit_loop tensor generator discriminator generator_loss discriminator_loss
     partial adam train_rnd).
Local Abbreviation run :=
  (fit tensor generator discriminator generator_loss discriminator_loss
     partial adam train_rnd test_rnd).
Local Abbreviation good := (pair_loads decode_jpeg files).

(** What [n] training steps make of the optimizers of [w]. *)
Local Abbreviation advanced n w w' :=
  (iterations (generator_optimizer w') = n + iterations (generator_optimizer w) /\
   iterations (discriminator_optimizer w')
   = n + iterations (discriminator_optimizer w)).

Lemma fit_body_iterations (w : world tensor)
    (example_input example_target : batch Q)
    (step : Z) (input_image target : batch Q) :
  advanced 1 w (body w example_input example_target step input_image target).1.
Proof.
  pose proof (train_step_iterations tensor generator discriminator
                generator_loss discriminator_loss partial adam w input_image
                target step) as H.
  cbv zeta in H. unfold fit_body.
  destruct (train_step _ _ _ _ _ _ _ _ _ _ _) as [w1 tr3]. exact H.
Qed.

Lemma fit_loop_iterations (n : nat) :
  forall (fuel : nat) (step : Z) (epoch : nat)
         (cur : stream (batch Q * batch Q))
         (example_input example_target : batch Q) (w : world tensor),
  n < fuel -> (0 <= step)%Z ->
  all_ok cur ->
  train_files <> [] ->
  Forall (loadable decode_jpeg files) train_files ->
  exists w' tr,
    loop fuel train_ds (step + Z.of_nat n)%Z step epoch cur
      example_input example_target w = (tr, Finished tensor w') /\
    advanced n w w'.
Proof.
  induction n as [|n IH];
    intros fuel step epoch cur example_input example_target w
           Hfuel Hstep Hok Hne Hall.
  - destruct fuel as [|fuel]; [lia|]. cbn [fit_loop].
    rewrite decide_True by lia. exists w, []. split; [done|].
    split; done.
  - destruct fuel as [|fuel]; [lia|]. cbn [fit_loop].
    rewrite decide_False by lia.
    set (nxt := match cur with
                | [] => (S epoch, train_ds (train_rnd epoch))
                | _ :: _ => (epoch, cur)
                end).
    assert (Hnxt : all_ok nxt.2 /\ nxt.2 <> []).
    { subst nxt. destruct cur as [|x cur].
      - exact (train_dataset_ok decode_jpeg files train_files
                 (train_rnd epoch) Hne Hall).
      - split; [exact Hok|done]. }
    destruct nxt as [epoch' cur']. cbn [snd] in Hnxt.
    destruct Hnxt as (Hok' & Hne').
    destruct cur' as [|[tr r] rest]; [done|].
    apply Forall_cons in Hok' as [Hr Hok']. simpl in Hr.
    destruct r as [[input_image target]|e]; [|discriminate].
    pose proof (fit_body_iterations w example_input example_target step
                  input_image target) as Hb.
    destruct (body w example_input example_target step input_image target)
      as [w1 trb]. cbn [fst] in Hb.
    destruct (IH fuel (step + 1)%Z epoch' rest example_input example_target w1)
      as (w' & trr & El & Hw); [lia|lia|done..|].
    replace (step + Z.of_nat (S n))%Z with (step + 1 + Z.of_nat n)%Z by lia.
    rewrite El. exists w', (tr ++ trb ++ trr). split; [done|].
    destruct Hb as (B1 & B2), Hw as (W1 & W2). split; lia.
Qed.

(** The optimizers after a run that ends: over loadable pairs and for a
    number of steps that is not negative, [fit] returns with each of the
    two optimizers having made exactly [steps] more updates than it had
    made at the start. *)
Theorem fit_optimizer_iterations (steps : Z) (fuel : nat) (w : world tensor) :
  (0 <= steps)%Z ->
  Z.to_nat steps < fuel ->
  train_files <> [] ->
  Forall (loadable decode_jpeg files) train_files ->
  test_files <> [] ->
  Forall (loadable decode_jpeg files) test_files ->
  exists w' tr,
    run fuel w train_ds test_ds steps = (tr, Finished tensor w') /\
    Z.of_nat (iterations (generator_optimizer w'))
    = (steps + Z.of_nat (iterations (generator_optimizer w)))%Z /\
    Z.of_nat (iterations (discriminator_optimizer w'))
    = (steps + Z.of_nat (iterations (discriminator_optimizer w)))%Z.
Proof.
  intros Hsteps Hfuel Hne Hall Hne' Hall'. unfold fit.
  destruct (test_dataset_ok decode_jpeg files test_files (test_rnd 0) Hne' Hall')
    as [Hok Hnn].
  destruct (test_ds (test_rnd 0)) as [|[tr0 r] rest]; [done|].
  apply Forall_cons in Hok as [Hr _]. simpl in Hr.
  destruct r as [[example_input example_target]|e]; [|discriminate].
  cbn [take].
  destruct (fit_loop_iterations (Z.to_nat steps) fuel 0%Z 0 []
              example_input example_target w)
    as (w' & tr & El & W1 & W2);
    [lia|lia|constructor|done..|].
  rewrite Z.add_0_l, Z2Nat.id in El by lia. rewrite El.
  exists w', (tr0 ++ tr). split; [done|]. split; lia.
Qed.

End FitOptimizers.

Lemma fit_optimizer_iterations_witness :
  (0 <= 3)%Z /\ Z.to_nat 3 < 4 /\
  Forall (loadable raw_decode demo_files) demo_train_files /\
  Forall (loadable raw_decode demo_files) demo_test_files /\
  exists w' tr,
    fit Z demo_generator demo_discriminator demo_generator_loss
      demo_discriminator_loss demo_partial demo_adam
      (fun _ => demo_epoch 0) (fun _ => demo_epoch 0) 4 demo_world
      (train_dataset raw_decode demo_files demo_train_files)
      (test_dataset raw_decode demo_files demo_test_files) 3%Z
    = (tr, Finished Z w') /\
    Z.of_nat (iterations (generator_optimizer w')) = 3%Z /\
    Z.of_nat (iterations (discriminator_optimizer w')) = 3%Z.
Proof.
  assert (H1 : (0 <= 3)%Z) by lia.
  assert (H2 : Z.to_nat 3 < 4) by (vm_compute; lia).
  split; [exact H1|]. split; [exact H2|].
  split; [exact demo_train_loadable|]. split; [exact demo_test_loadable|].
  exact (fit_optimizer_iterations Z demo_generator demo_discriminator
           demo_generator_loss demo_discriminator_loss demo_partial
           demo_adam (fun _ => demo_epoch 0) (fun _ => demo_epoch 0)
           raw_decode demo_files demo_train_files demo_test_files
           3%Z 4 demo_world H1 H2 ltac:(discriminate) demo_train_loadable
           ltac:(discriminate) demo_test_loadable).
Defined.

(** ** The further properties at the small instance *)

Lemma train_epoch_loads_each_file_once_witness :
  Forall (loadable raw_decode demo_files) demo_train_files /\
  length (train_dataset raw_decode demo_files demo_train_files (demo_epoch 1))
  = 2 /\
  stream_events
    (train_dataset raw_decode demo_files demo_train_files (demo_epoch 1))
  = [EvLoad "/d/dataset/training/input/b.jpg";
     EvLoad "/d/dataset/training/input/a.jpg"].
Proof.
  split; [exact demo_train_loadable|].
  destruct (train_epoch_loads_each_file_once raw_decode demo_files
              demo_train_files (demo_epoch 1) demo_train_loadable)
    as (H1 & H2 & _).
  split; [exact H1|]. rewrite H2. vm_compute. reflexivity.
Defined.

Lemma fit_fails_before_first_step_witness :
  length ("/d/dataset/training/input/c.jpg" :: demo_train_files) <= BUFFER_SIZE /\
  is_ok (load raw_decode demo_files_missing "/d/dataset/training/input/c.jpg")
  = false /\
  exists tr e,
    fit Z demo_generator demo_discriminator demo_generator_loss
      demo_discriminator_loss demo_partial demo_adam
      (fun _ => demo_epoch 0) (fun _ => demo_epoch 0) 4 demo_world
      (train_dataset raw_decode demo_files_missing
         ("/d/dataset/training/input/c.jpg" :: demo_train_files))
      (test_dataset raw_decode demo_files_missing demo_test_files) 3%Z
    = (tr, Raised Z e) /\
    forallb is_load tr = true /\
    count_events is_call tr = 0 /\
    count_events is_train_step tr = 0.
Proof.
  assert (H1 : length ("/d/dataset/training/input/c.jpg" :: demo_train_files)
               <= BUFFER_SIZE) by (vm_compute; lia).
  assert (H2 : is_ok (load raw_decode demo_files_missing
                        "/d/dataset/training/input/c.jpg") = false)
    by (vm_compute; reflexivity).
  split; [exact H1|]. split; [exact H2|].
  apply (fit_fails_before_first_step Z demo_generator demo_discriminator
           demo_generator_loss demo_discriminator_loss demo_partial demo_adam
           (fun _ => demo_epoch 0) (fun _ => demo_epoch 0)
           raw_decode demo_files_missing
           ("/d/dataset/training/input/c.jpg" :: demo_train_files)
           demo_test_files "/d/dataset/training/input/c.jpg" 4 demo_world 3%Z
           H1); [|exact H2|lia|lia].
  apply (bool_decide_unpack _). vm_compute. exact I.
Defined.

Lemma fit_event_counts_witness :
  (0 <= 3)%Z /\ Z.to_nat 3 < 4 /\
  Forall (loadable raw_decode demo_files) demo_train_files /\
  Forall (loadable raw_decode demo_files) demo_test_files /\
  exists w' tr,
    fit Z demo_generator demo_discriminator demo_generator_loss
      demo_discriminator_loss demo_partial demo_adam
      (fun _ => demo_epoch 0) (fun _ => demo_epoch 0) 4 demo_world
      (train_dataset raw_decode demo_files demo_train_files)
      (test_dataset raw_decode demo_files demo_test_files) 3%Z
    = (tr, Finished Z w') /\
    Z.of_nat (count_events is_plot tr) = 1%Z /\
    Z.of_nat (count_events is_dot tr) = 0%Z /\
    Z.of_nat (count_events is_call tr) = 10%Z /\
    Z.of_nat (count_events is_summary tr) = 12%Z.
Proof.
  assert (H1 : (0 <= 3)%Z) by lia.
  assert (H2 : Z.to_nat 3 < 4) by (vm_compute; lia).
  split; [exact H1|]. split; [exact H2|].
  split; [exact demo_train_loadable|]. split; [exact demo_test_loadable|].
  exact (fit_event_counts Z demo_generator demo_discriminator
           demo_generator_loss demo_discriminator_loss demo_partial
           demo_adam (fun _ => demo_epoch 0) (fun _ => demo_epoch 0)
           raw_decode demo_files demo_train_files demo_test_files
           3%Z 4 demo_world H1 H2 ltac:(discriminate) demo_train_loadable
           ltac:(discriminate) demo_test_loadable).
Defined.
